(** * vouch-proxy, package cfg: configuration resolution and claim headers

    A shallow embedding of [pkg/cfg/cfg.go].  Go strings are byte sequences,
    so a Go [string] is a [list ascii] here ([ascii] is exactly one byte);
    a [rune] is an integer code point.  The Go standard-library functions
    the source calls ([strings.TrimPrefix], [strings.Replace],
    [strings.ReplaceAll], [http.CanonicalHeaderKey], ranging over a string,
    the conversion [string(r)]) are modelled after their documented
    behaviour on bytes. *)

From Stdlib Require Import ZArith Ascii String List Bool Lia.
From stdpp Require Import gmap strings list fin_maps.

Local Open Scope Z_scope.

(** ** Bytes, runes and Go strings *)

Abbreviation gostring := (list ascii).

(** A Go string literal. *)
Definition str (s : string) : gostring := list_ascii_of_string s.

(** The numeric value of a byte, and Go's [byte(x)] truncating conversion. *)
Definition byteZ (a : ascii) : Z := Z.of_N (N_of_ascii a).
Definition byte_of (z : Z) : ascii := ascii_of_N (Z.to_N (Z.land z 255)).

Module utf8.

Definition RuneError : Z := 65533.   (* U+FFFD *)
Definition MaxRune : Z := 1114111.   (* U+10FFFF *)
Definition surrogateMin : Z := 55296.
Definition surrogateMax : Z := 57343.

Definition maskx : Z := 63.
Definition mask2 : Z := 31.
Definition mask3 : Z := 15.
Definition mask4 : Z := 7.

Definition xx : Z := 241.  (* 0xF1: invalid, size 1 *)
Definition as_ : Z := 240. (* 0xF0: ASCII, size 1 *)

(** The table [first]: information about the first byte of a sequence
    (low three bits: size; high four bits: index into [acceptRanges]). *)
Definition first (b : Z) : Z :=
  if b <? 128 then as_
  else if b <? 194 then xx
  else if b <? 224 then 2          (* s1 *)
  else if b =? 224 then 19         (* s2 *)
  else if b <? 237 then 3          (* s3 *)
  else if b =? 237 then 35         (* s4 *)
  else if b <? 240 then 3          (* s3 *)
  else if b =? 240 then 52         (* s5 *)
  else if b <? 244 then 4          (* s6 *)
  else if b =? 244 then 68         (* s7 *)
  else xx.

(** [acceptRanges]: the accepted range of the second byte. *)
Definition acceptRanges (i : Z) : Z * Z :=
  if i =? 1 then (160, 191)
  else if i =? 2 then (128, 159)
  else if i =? 3 then (144, 191)
  else if i =? 4 then (128, 143)
  else (128, 191).

Definition locb : Z := 128.
Definition hicb : Z := 191.

(** [s[i]], read only where the length check has passed. *)
Definition at_ (s : gostring) (i : nat) : Z := byteZ (nth i s zero).

(** [utf8.DecodeRuneInString]: the first rune of [s] and its width in
    bytes; an ill-formed sequence decodes to [(RuneError, 1)]. *)
Definition DecodeRuneInString (s : gostring) : Z * nat :=
  let n := length s in
  if (n <? 1)%nat then (RuneError, 0%nat) else
  let s0 := at_ s 0 in
  let x := first s0 in
  if as_ <=? x then ((if x =? xx then RuneError else s0), 1%nat) else
  let sz := Z.to_nat (Z.land x 7) in
  let accept := acceptRanges (Z.shiftr x 4) in
  if (n <? sz)%nat then (RuneError, 1%nat) else
  let s1 := at_ s 1 in
  if (s1 <? fst accept) || (snd accept <? s1) then (RuneError, 1%nat) else
  if (sz <=? 2)%nat then
    (Z.lor (Z.shiftl (Z.land s0 mask2) 6) (Z.land s1 maskx), 2%nat) else
  let s2 := at_ s 2 in
  if (s2 <? locb) || (hicb <? s2) then (RuneError, 1%nat) else
  if (sz <=? 3)%nat then
    (Z.lor (Z.lor (Z.shiftl (Z.land s0 mask3) 12)
                  (Z.shiftl (Z.land s1 maskx) 6))
           (Z.land s2 maskx), 3%nat) else
  let s3 := at_ s 3 in
  if (s3 <? locb) || (hicb <? s3) then (RuneError, 1%nat) else
  (Z.lor (Z.lor (Z.lor (Z.shiftl (Z.land s0 mask4) 18)
                       (Z.shiftl (Z.land s1 maskx) 12))
                (Z.shiftl (Z.land s2 maskx) 6))
         (Z.land s3 maskx), 4%nat).

(** [utf8.EncodeRune], which is also the conversion [string(r)] of a
    rune: an invalid code point is encoded as U+FFFD. *)
Definition encode3 (r : Z) : gostring :=
  [ byte_of (Z.lor 224 (Z.shiftr r 12));
    byte_of (Z.lor 128 (Z.land (Z.shiftr r 6) maskx));
    byte_of (Z.lor 128 (Z.land r maskx)) ].

Definition EncodeRune (r : Z) : gostring :=
  let i := Z.land r 4294967295 in   (* uint32(r) *)
  if i <=? 127 then [ byte_of r ]
  else if i <=? 2047 then
    [ byte_of (Z.lor 192 (Z.shiftr r 6));
      byte_of (Z.lor 128 (Z.land r maskx)) ]
  else if (MaxRune <? i) || ((surrogateMin <=? i) && (i <=? surrogateMax))
    then encode3 RuneError
  else if i <=? 65535 then encode3 r
  else
    [ byte_of (Z.lor 240 (Z.shiftr r 18));
      byte_of (Z.lor 128 (Z.land (Z.shiftr r 12) maskx));
      byte_of (Z.lor 128 (Z.land (Z.shiftr r 6) maskx));
      byte_of (Z.lor 128 (Z.land r maskx)) ].

(** The runes a [for _, r := range s] loop yields, in order.  Every
    iteration consumes at least one byte, so [length s] iterations are
    always enough. *)
Fixpoint range_fuel (fuel : nat) (s : gostring) : list Z :=
  match fuel with
  | O => []
  | S fuel' =>
      match s with
      | [] => []
      | _ => let '(r, w) := DecodeRuneInString s in
             r :: range_fuel fuel' (drop w s)
      end
  end.

Definition range (s : gostring) : list Z := range_fuel (length s) s.

Definition RuneCountInString (s : gostring) : Z := Z.of_nat (length (range s)).

(** A Unicode scalar value: a code point that is not a surrogate. *)
Definition scalar (r : Z) : Prop :=
  0 <= r <= MaxRune /\ ~ (surrogateMin <= r <= surrogateMax).

(** Well-formed UTF-8: the encoding of a sequence of scalar values. *)
Definition encodeAll (rs : list Z) : gostring := concat (map EncodeRune rs).

Definition wellformed (s : gostring) : Prop :=
  exists rs, Forall scalar rs /\ s = encodeAll rs.

End utf8.

(** ** Package strings *)

Module strings.

(** [strings.HasPrefix]. *)
Fixpoint HasPrefix (s prefix : gostring) {struct prefix} : bool :=
  match prefix, s with
  | [], _ => true
  | p :: prefix', c :: s' => Ascii.eqb c p && HasPrefix s' prefix'
  | _ :: _, [] => false
  end.

(** [strings.TrimPrefix]. *)
Definition TrimPrefix (s prefix : gostring) : gostring :=
  if HasPrefix s prefix then drop (length prefix) s else s.

(** [strings.Index]: the position of the first instance of [substr] in
    [s]; [None] stands for Go's [-1]. *)
Fixpoint Index (s substr : gostring) : option nat :=
  if HasPrefix s substr then Some 0%nat
  else match s with
       | [] => None
       | _ :: s' => S <$> Index s' substr
       end.

(** The loop of [strings.Count] for a non-empty [substr]; every round
    that finds an instance drops at least one byte. *)
Fixpoint count_loop (fuel : nat) (s substr : gostring) : Z :=
  match fuel with
  | O => 0
  | S fuel' =>
      match Index s substr with
      | None => 0
      | Some i => 1 + count_loop fuel' (drop (i + length substr) s) substr
      end
  end.

(** [strings.Count]: the number of non-overlapping instances. *)
Definition Count (s substr : gostring) : Z :=
  match substr with
  | [] => utf8.RuneCountInString s + 1
  | _ => count_loop (S (length s)) s substr
  end.

(** The replacement loop of [strings.Replace]: [k] replacements are still
    to be made in [rest = s[start:]], and [i] have been made. *)
Fixpoint replace_loop (k i : nat) (rest old new : gostring) : gostring :=
  match k with
  | O => rest
  | S k' =>
      let j :=
        match old with
        | [] => Some (if (0 <? i)%nat then snd (utf8.DecodeRuneInString rest) else 0%nat)
        | _ => Index rest old
        end in
      match j with
      | Some j =>
          take j rest ++ new
            ++ replace_loop k' (S i) (drop (j + length old) rest) old new
      | None => rest   (* not reached: [k] never exceeds the count *)
      end
  end.

(** [strings.Replace]: the first [n] non-overlapping instances of [old]
    replaced by [new]; no limit when [n < 0]. *)
Definition Replace (s old new : gostring) (n : Z) : gostring :=
  if bool_decide (old = new) || (n =? 0) then s else
  let m := Count s old in
  if m =? 0 then s else
  let n := if (n <? 0) || (m <? n) then m else n in
  replace_loop (Z.to_nat n) 0 s old new.

(** [strings.ReplaceAll]. *)
Definition ReplaceAll (s old new : gostring) : gostring := Replace s old new (-1).

End strings.

(** ** net/http: canonical header keys *)

Module http.

(** [validHeaderFieldByte]: the [tchar]s of RFC 7230. *)
Definition validHeaderFieldByte (c : ascii) : bool :=
  let b := byteZ c in
  ((48 <=? b) && (b <=? 57)) || ((97 <=? b) && (b <=? 122))
  || ((65 <=? b) && (b <=? 90))
  || bool_decide (c ∈ str "!#$%&'*+-.^_`|~").

Definition toLower : Z := 32.   (* 'a' - 'A' *)

(** The second loop of [canonicalMIMEHeaderKey]: upper case at the start
    and after each hyphen, lower case elsewhere. *)
Fixpoint canonical (upper : bool) (a : gostring) : gostring :=
  match a with
  | [] => []
  | c :: a' =>
      let b := byteZ c in
      let c' := if upper && (97 <=? b) && (b <=? 122) then byte_of (b - toLower)
                else if negb upper && (65 <=? b) && (b <=? 90) then byte_of (b + toLower)
                else c in
      c' :: canonical (Ascii.eqb c' "-"%char) a'
  end.

(** [http.CanonicalHeaderKey] (that is, [textproto.CanonicalMIMEHeaderKey]):
    a string with a space or an invalid header field byte is returned
    without modifications. *)
Definition CanonicalHeaderKey (s : gostring) : gostring :=
  if forallb validHeaderFieldByte s then canonical true s else s.

End http.

(** ** The configuration (type [Config]) *)

Module JWT.
Record t := mk {
  MaxAge : Z;          (* in minutes *)
  Issuer : gostring;
  Secret : gostring;
  Compress : bool }.
Definition zero : t := mk 0 [] [] false.
End JWT.

Module Cookie.
Record t := mk {
  Name : gostring;
  Domain : gostring;
  Secure : bool;
  HTTPOnly : bool;
  MaxAge : Z;
  SameSite : gostring }.
Definition zero : t := mk [] [] false false 0 [].
End Cookie.

Module Headers.
Record t := mk {
  JWT : gostring;
  User : gostring;
  QueryString : gostring;
  Redirect : gostring;
  Success : gostring;
  ClaimHeader : gostring;
  Claims : list gostring;
  AccessToken : gostring;
  IDToken : gostring;
  (* the rawClaim is mapped to the actual claims header *)
  ClaimsCleaned : gmap gostring gostring }.
Definition zero : t := mk [] [] [] [] [] [] [] [] [] ∅.
End Headers.

Module Session.
Record t := mk {
  Name : gostring;
  Key : gostring }.
Definition zero : t := mk [] [].
End Session.

Record Config := mkConfig {
  LogLevel : gostring;
  Listen : gostring;
  Port : Z;
  Domains : list gostring;
  WhiteList : list gostring;
  TeamWhiteList : list gostring;
  AllowAllUsers : bool;
  PublicAccess : bool;
  JWT : JWT.t;
  Cookie : Cookie.t;
  Headers : Headers.t;
  Session : Session.t;
  TestURL : gostring;
  TestURLs : list gostring;
  Testing : bool;
  LogoutRedirectURLs : list gostring }.

(** [&Config{}]: every field at its zero value. *)
Definition zeroConfig : Config :=
  mkConfig [] [] 0 [] [] [] false false
           JWT.zero Cookie.zero Headers.zero Session.zero [] [] false [].

(** [Branding]. *)
Module Branding.
Definition LCName : gostring := str "vouch".
Definition UCName : gostring := str "VOUCH".
Definition CcName : gostring := str "Vouch".
Definition FullName : gostring := str "Vouch Proxy".
Definition OldLCName : gostring := str "lasso".
Definition URL : gostring := str "https://github.com/vouch/vouch-proxy".
End Branding.

(** ** Errors

    A Go [error] is [nil] or an error value; the error values of this
    package are told apart by the statement that creates them. *)
Inductive error_value :=
  | ErrExternal (msg : gostring)          (* returned by a collaborator (oauth, viper) *)
  | ErrRequiredOption (opt : gostring)    (* "required configuration option ... is not set" *)
  | ErrDomainsOrAllowAllUsers             (* "either one of vouch.domains or vouch.allowAllUsers needs to be set" *)
  | ErrCookieMaxAgeNegative (cur : Z)     (* "cookie maxAge cannot be lower than 0" *)
  | ErrJWTMaxAge (cur : Z)                (* "JWT maxAge cannot be zero or lower" *)
  | ErrCookieMaxAgeLarger (cookie jwt : Z). (* "Cookie maxAge cannot be larger than the JWT maxAge" *)

Abbreviation error := (option error_value).
Abbreviation nil_error := (@None error_value).

(** ** claimToHeader and cleanClaimsHeaders *)

(** The characters that are replaced by a hyphen whatever their position:
    the literal of the first loop of [claimToHeader]. *)
Definition disallowed : gostring := "034"%char :: str "(),/\:;<=>?@[]{}_.".

(** First loop: [for _, r := range disallowed { claim = ReplaceAll(claim, string(r), "-") }]. *)
Definition replaceDisallowed (claim : gostring) : gostring :=
  fold_left (fun claim r => strings.ReplaceAll claim (utf8.EncodeRune r) (str "-"))
            (utf8.range disallowed) claim.

(** Second loop: it ranges over the claim as it stands when the loop
    starts, and replaces, for each rune outside [33, 126], the first
    instance of that rune in the current claim. *)
Definition replaceNonPrintable (claim : gostring) : gostring :=
  fold_left (fun claim r =>
               if (r <? 33) || (126 <? r)
               then strings.Replace claim (utf8.EncodeRune r) (str "-") 1
               else claim)
            (utf8.range claim) claim.

(** The claim without its prefix, before canonicalization. *)
Definition sanitize (claim : gostring) : gostring :=
  let claim := strings.TrimPrefix claim (str "http://") in
  let claim := strings.TrimPrefix claim (str "https://") in
  let claim := replaceDisallowed claim in
  replaceNonPrintable claim.

(** [claimToHeader].  The calls to the logger do not change the result and
    are left out. *)
Definition claimToHeader (Cfg : Config) (claim : gostring) : gostring * error :=
  let claim := sanitize claim in
  let claim := Headers.ClaimHeader (Headers Cfg) ++ http.CanonicalHeaderKey claim in
  (claim, nil_error).

(** The loop of [cleanClaimsHeaders]: it returns at the first error. *)
Fixpoint cleanLoop (Cfg : Config) (claims : list gostring)
    (cleanedHeaders : gmap gostring gostring) : gmap gostring gostring + error_value :=
  match claims with
  | [] => inl cleanedHeaders
  | claim :: claims' =>
      let '(header, err) := claimToHeader Cfg claim in
      match err with
      | Some e => inr e
      | None => cleanLoop Cfg claims' (<[claim := header]> cleanedHeaders)
      end
  end.

(** [cleanClaimsHeaders]: the configuration afterwards and the error. *)
Definition cleanClaimsHeaders (Cfg : Config) : Config * error :=
  match cleanLoop Cfg (Headers.Claims (Headers Cfg)) ∅ with
  | inr e => (Cfg, Some e)
  | inl cleanedHeaders =>
      let h := Headers Cfg in
      (mkConfig (LogLevel Cfg) (Listen Cfg) (Port Cfg) (Domains Cfg) (WhiteList Cfg)
         (TeamWhiteList Cfg) (AllowAllUsers Cfg) (PublicAccess Cfg) (JWT Cfg) (Cookie Cfg)
         (Headers.mk (Headers.JWT h) (Headers.User h) (Headers.QueryString h)
            (Headers.Redirect h) (Headers.Success h) (Headers.ClaimHeader h)
            (Headers.Claims h) (Headers.AccessToken h) (Headers.IDToken h) cleanedHeaders)
         (Session Cfg) (TestURL Cfg) (TestURLs Cfg) (Testing Cfg) (LogoutRedirectURLs Cfg),
       nil_error)
  end.

(** A configuration that holds a claim-header prefix and a list of claims,
    every other field at its zero value. *)
Definition withClaims (prefix : gostring) (claims : list gostring) : Config :=
  mkConfig [] [] 0 [] [] [] false false JWT.zero Cookie.zero
    (Headers.mk [] [] [] [] [] prefix claims [] [] ∅) Session.zero [] [] false [].

(** ** Character classes and the single-pass replacement

    The sets of bytes the properties below speak of. *)

Definition isLetter (c : ascii) : bool :=
  let b := byteZ c in ((65 <=? b) && (b <=? 90)) || ((97 <=? b) && (b <=? 122)).

Definition isDigit (c : ascii) : bool :=
  let b := byteZ c in (48 <=? b) && (b <=? 57).

(** English letters, digits and hyphens. *)
Definition letterDigitHyphen (c : ascii) : bool :=
  isLetter c || isDigit c || Ascii.eqb c "-"%char.

(** The printable characters that are neither of those nor in [disallowed]. *)
Definition otherTokenChar (c : ascii) : bool :=
  bool_decide (c ∈ str "!#$%&'*+^`|~").

Definition headerChar (c : ascii) : bool := letterDigitHyphen c || otherTokenChar c.

(** A byte in [33, 126] that is not in [disallowed]. *)
Definition cleanByte (c : ascii) : bool :=
  (33 <=? byteZ c) && (byteZ c <=? 126) && negb (bool_decide (c ∈ disallowed)).

(** A single pass over the characters of the claim, as a range loop yields
    them: every character with a code point below 33 or above 126 becomes a
    hyphen, every other one stays. *)
Definition replaceEveryNonPrintable (claim : gostring) : gostring :=
  concat (map (fun r => if (r <? 33) || (126 <? r) then str "-" else utf8.EncodeRune r)
              (utf8.range claim)).

(** ** Logging

    A call to the logger is recorded with its level, its format (empty for
    the calls that take none) and its arguments. *)

Inductive Level := DebugLevel | InfoLevel | WarnLevel | ErrorLevel | PanicLevel | FatalLevel.

Inductive LogArg :=
  | ArgString (s : gostring)
  | ArgInt (n : Z)
  | ArgError (msg : gostring)
  | ArgErrorValue (e : error_value)
  | ArgConfig (c : Config).

Record LogEntry := mkLog {
  level : Level;
  format : gostring;
  args : list LogArg }.

(** ** The collaborators: viper, os, path/filepath, the rest of the package

    What the package does not define itself is an interface here.  An
    error of a collaborator is known by its message. *)

Abbreviation ext_error := (option gostring).

(** What viper has been told about the configuration file to read. *)
Record Settings := mkSettings {
  configFile : gostring;
  configName : gostring;
  configType : gostring;
  configPaths : list gostring }.

Definition noSettings : Settings := mkSettings [] [] [] [].

Class World := {
  (** the parsed content of a configuration file *)
  Doc : Type;
  (** finding, reading and parsing the file the settings name *)
  viper_readFile : Settings -> Doc + gostring;
  (** [viper.IsSet(key)] on that content *)
  viper_isSet : Doc -> gostring -> bool;
  (** [viper.UnmarshalKey(key, &cfg)] on that content: mapstructure decodes
      the value under [key] into the configuration [cfg] points to *)
  viper_decode : Doc -> gostring -> Config -> Config * ext_error;
  (** [viper.Unmarshal(q, opt)] with [ErrorUnused], into the struct
      [quick] of [checkConfigFileWellFormed] *)
  viper_decodeStrict : Doc -> ext_error;
  (** viper's [absPathify] *)
  absPathify : gostring -> gostring;
  Getenv : gostring -> gostring;
  Executable : gostring + gostring;
  filepath_Abs : gostring -> gostring;
  filepath_Dir : gostring -> gostring;
  filepath_Join : gostring -> gostring -> gostring;
  (** [flag.Lookup("test.v") != nil] *)
  underGoTest : bool;
  (** [oauthBasicTest()], which the package defines in another file *)
  oauthBasicTest : ext_error }.

(** ** The state of the package *)

Record cmdLineFlags := mkFlags {
  IsHealthCheck : bool;
  port : Z;
  cmd_configFile : gostring;
  logLevel : Z;
  logTest : bool }.

Definition RequiredOptions : list gostring :=
  [str "oauth.provider"; str "oauth.client_id"].

(** for a Base64 string we need 44 characters to get 32bytes (6 bits per char) *)
Definition minBase64Length : Z := 44.
Definition base64Bytes : Z := 32.

Definition nl : ascii := "010"%char.
Definition tab : ascii := "009"%char.

(** The format of the message that asks to rename the old key. *)
Definition migrationFormat : gostring :=
  [nl; nl] ++ str "IMPORTANT!" ++ [nl; nl]
  ++ str "please update your config file to change '%s:' to '%s:' as per %s"
  ++ [nl; tab; tab; tab].

Definition migrationWarning : LogEntry :=
  mkLog ErrorLevel migrationFormat
        [ArgString Branding.OldLCName; ArgString Branding.LCName; ArgString Branding.URL].

Definition secretWarningFormat : gostring :=
  str "Your secret is too short! (%d characters long). Please consider deleting %s to automatically generate a secret of %d characters".

Definition sessionKeyWarningFormat : gostring :=
  str "Your session key is too short! (%d characters long). Please consider deleting %s to automatically generate a secret of %d characters".

(** Go's [len] of a string. *)
Definition len (s : gostring) : Z := Z.of_nat (length s).

Definition setPort (p : Z) (c : Config) : Config :=
  mkConfig (LogLevel c) (Listen c) p (Domains c) (WhiteList c) (TeamWhiteList c)
           (AllowAllUsers c) (PublicAccess c) (JWT c) (Cookie c) (Headers c) (Session c)
           (TestURL c) (TestURLs c) (Testing c) (LogoutRedirectURLs c).

Section Resolution.
Context {W : World}.

Record State := mkState {
  Cfg : Config;                 (* [*Cfg], the main exported config variable *)
  RootDir : gostring;
  secretFile : gostring;
  CmdLine : cmdLineFlags;
  viper : Settings;             (* the settings of the global viper *)
  viper_config : option Doc;    (* the content it has read, if any *)
  log : list LogEntry }.

Definition setCfg (c : Config) (st : State) : State :=
  mkState c (RootDir st) (secretFile st) (CmdLine st) (viper st) (viper_config st) (log st).

Definition setRoot (d : gostring) (st : State) : State :=
  mkState (Cfg st) d (secretFile st) (CmdLine st) (viper st) (viper_config st) (log st).

Definition setSecretFile (f : gostring) (st : State) : State :=
  mkState (Cfg st) (RootDir st) f (CmdLine st) (viper st) (viper_config st) (log st).

Definition setViper (v : Settings) (st : State) : State :=
  mkState (Cfg st) (RootDir st) (secretFile st) (CmdLine st) v (viper_config st) (log st).

Definition setDoc (d : option Doc) (st : State) : State :=
  mkState (Cfg st) (RootDir st) (secretFile st) (CmdLine st) (viper st) d (log st).

(** One call to the logger. *)
Definition logf (lvl : Level) (fmt : gostring) (a : list LogArg) (st : State) : State :=
  mkState (Cfg st) (RootDir st) (secretFile st) (CmdLine st) (viper st) (viper_config st)
          (log st ++ [mkLog lvl fmt a]).

(** How a function that may stop the process ends. *)
Inductive Outcome :=
  | Returns (st : State)
  | Exits (st : State)     (* [log.Fatalf]: the process exits *)
  | Panics (st : State).   (* [log.Panic] *)

Definition andThen (o : Outcome) (k : State -> Outcome) : Outcome :=
  match o with
  | Returns st => k st
  | Exits st => Exits st
  | Panics st => Panics st
  end.

(** *** viper *)

Definition SetConfigFile (in_ : gostring) (st : State) : State :=
  match in_ with
  | [] => st
  | _ => let v := viper st in
         setViper (mkSettings in_ (configName v) (configType v) (configPaths v)) st
  end.

Definition SetConfigName (in_ : gostring) (st : State) : State :=
  match in_ with
  | [] => st
  | _ => let v := viper st in
         setViper (mkSettings [] in_ (configType v) (configPaths v)) st
  end.

Definition SetConfigType (in_ : gostring) (st : State) : State :=
  match in_ with
  | [] => st
  | _ => let v := viper st in
         setViper (mkSettings (configFile v) (configName v) in_ (configPaths v)) st
  end.

Definition AddConfigPath (in_ : gostring) (st : State) : State :=
  match in_ with
  | [] => st
  | _ => let v := viper st in
         let absin := absPathify in_ in
         if bool_decide (absin ∈ configPaths v) then st
         else setViper (mkSettings (configFile v) (configName v) (configType v)
                                   (configPaths v ++ [absin])) st
  end.

(** [viper.ReadInConfig]: on success the content read replaces the
    content viper held. *)
Definition ReadInConfig (st : State) : State * ext_error :=
  match viper_readFile (viper st) with
  | inl d => (setDoc (Some d) st, None)
  | inr e => (st, Some e)
  end.

Definition IsSet (key : gostring) (st : State) : bool :=
  match viper_config st with
  | Some d => viper_isSet d key
  | None => false
  end.

(** [UnmarshalKey]: populate struct from contents of cfg tree at key. *)
Definition UnmarshalKey (key : gostring) (rawVal : Config) (st : State) : Config * ext_error :=
  match viper_config st with
  | Some d => viper_decode d key rawVal
  | None => (rawVal, None)
  end.

Definition checkConfigFileWellFormed (st : State) : ext_error :=
  match viper_config st with
  | Some d => viper_decodeStrict d
  | None => None
  end.

(** [if err != nil { log.Error(err) }]. *)
Definition logError (err : ext_error) (st : State) : State :=
  match err with
  | Some msg => logf ErrorLevel [] [ArgError msg] st
  | None => st
  end.

(** *** setRootDir *)

Definition setRootDir (st : State) : Outcome :=
  let root := Getenv (Branding.UCName ++ str "_ROOT") in
  match root with
  | _ :: _ =>
      let st := setRoot root st in
      Returns (logf WarnLevel (str "set cfg.RootDir from VOUCH_ROOT env var: %s")
                    [ArgString (RootDir st)] st)
  | [] =>
      match Executable with
      | inr errEx => Panics (logf PanicLevel [] [ArgError errEx] st)
      | inl ex =>
          let st := setRoot (filepath_Dir ex) st in
          Returns (logf DebugLevel (str "cfg.RootDir: %s") [ArgString (RootDir st)] st)
      end
  end.

(** *** parseConfig *)

(** The first part of [parseConfig]: which file viper is to read. *)
Definition locateConfig (st : State) : State :=
  let configEnv := Getenv (Branding.UCName ++ str "_CONFIG") in
  match configEnv with
  | _ :: _ =>
      let st := logf WarnLevel (str "config file loaded from environmental variable %s: %s")
                     [ArgString (Branding.UCName ++ str "_CONFIG"); ArgString configEnv] st in
      SetConfigFile (filepath_Abs configEnv) st
  | [] =>
      match cmd_configFile (CmdLine st) with
      | _ :: _ =>
          let st := logf InfoLevel (str "config file set on commandline: %s")
                         [ArgString (cmd_configFile (CmdLine st))] st in
          let st := AddConfigPath (str "/") st in
          let st := AddConfigPath (RootDir st) st in
          let st := AddConfigPath (filepath_Join (RootDir st) (str "config")) st in
          SetConfigFile (cmd_configFile (CmdLine st)) st
      | [] =>
          let st := SetConfigName (str "config") st in
          let st := SetConfigType (str "yaml") st in
          AddConfigPath (filepath_Join (RootDir st) (str "config")) st
      end
  end.

(** The second part of [parseConfig], once the file is read: decode the
    key [vouch], and fall back on the key [lasso]. *)
Definition decodeConfig (st : State) : State :=
  let st :=
    match checkConfigFileWellFormed st with
    | Some msg =>
        let st := logf ErrorLevel []
          [ArgString (str "configuration error: config file should have only two top level elements: `vouch` and `oauth`.  These and other syntax errors follow...")] st in
        let st := logf ErrorLevel [] [ArgError msg] st in
        logf ErrorLevel [] [ArgString (str "continuing... (maybe you know what you're doing :)")] st
    | None => st
    end in
  let '(cfg, err) := UnmarshalKey Branding.LCName (Cfg st) st in
  let st := logError err (setCfg cfg st) in
  if (length (Domains (Cfg st)) =? 0)%nat then
    (* then lets check for "lasso" *)
    let '(oldConfig, err) := UnmarshalKey Branding.OldLCName zeroConfig st in
    let st := logError err st in
    if negb (length (Domains oldConfig) =? 0)%nat then
      let st := logf ErrorLevel migrationFormat
                     [ArgString Branding.OldLCName; ArgString Branding.LCName;
                      ArgString Branding.URL] st in
      setCfg oldConfig st
    else st
  else st.

(** [parseConfig]: parse the config file. *)
Definition parseConfig (st : State) : Outcome :=
  let st := locateConfig st in
  let '(st, err) := ReadInConfig st in
  match err with
  | Some msg =>
      Exits (logf FatalLevel (str "Fatal error config file: %s") [ArgString msg] st)
  | None => Returns (decodeConfig st)
  end.

(** *** basicTest *)

(** [basicTest]: just a quick sanity check to see if the config is sound. *)
Definition basicTest (st : State) : error * State :=
  (* check oauth config *)
  match oauthBasicTest with
  | Some msg => (Some (ErrExternal msg), st)
  | None =>
  match find (fun opt => negb (IsSet opt st)) RequiredOptions with
  | Some opt => (Some (ErrRequiredOption opt), st)
  | None =>
  (* Domains is required _unless_ Cfg.AllowAllUsers is set *)
  if negb (IsSet (Branding.LCName ++ str ".allowAllUsers") st)
     && negb (IsSet (Branding.LCName ++ str ".domains") st)
  then (Some ErrDomainsOrAllowAllUsers, st)
  else
  let c := Cfg st in
  (* issue a warning if the secret is too small *)
  let st := logf DebugLevel (str "vouch.jwt.secret is %d characters long")
                 [ArgInt (len (JWT.Secret (JWT c)))] st in
  let st := if len (JWT.Secret (JWT c)) <? minBase64Length
            then logf ErrorLevel secretWarningFormat
                      [ArgInt (len (JWT.Secret (JWT c)));
                       ArgString (Branding.LCName ++ str ".jwt.secret");
                       ArgInt minBase64Length] st
            else st in
  let st := logf DebugLevel (str "vouch.session.key is %d characters long")
                 [ArgInt (len (Session.Key (Session c)))] st in
  let st := if len (Session.Key (Session c)) <? minBase64Length
            then logf ErrorLevel sessionKeyWarningFormat
                      [ArgInt (len (Session.Key (Session c)));
                       ArgString (Branding.LCName ++ str ".session.key");
                       ArgInt minBase64Length] st
            else st in
  if Cookie.MaxAge (Cookie c) <? 0
  then (Some (ErrCookieMaxAgeNegative (Cookie.MaxAge (Cookie c))), st)
  else if JWT.MaxAge (JWT c) <=? 0
  then (Some (ErrJWTMaxAge (JWT.MaxAge (JWT c))), st)
  else if JWT.MaxAge (JWT c) <? Cookie.MaxAge (Cookie c)
  then (Some (ErrCookieMaxAgeLarger (Cookie.MaxAge (Cookie c)) (JWT.MaxAge (JWT c))), st)
  else (nil_error, st)
  end end.

(** The error of [basicTest], without the logging. *)
Definition basicTestError (st : State) : error :=
  match oauthBasicTest with
  | Some msg => Some (ErrExternal msg)
  | None =>
  match find (fun opt => negb (IsSet opt st)) RequiredOptions with
  | Some opt => Some (ErrRequiredOption opt)
  | None =>
  if negb (IsSet (Branding.LCName ++ str ".allowAllUsers") st)
     && negb (IsSet (Branding.LCName ++ str ".domains") st)
  then Some ErrDomainsOrAllowAllUsers
  else if Cookie.MaxAge (Cookie (Cfg st)) <? 0
  then Some (ErrCookieMaxAgeNegative (Cookie.MaxAge (Cookie (Cfg st))))
  else if JWT.MaxAge (JWT (Cfg st)) <=? 0
  then Some (ErrJWTMaxAge (JWT.MaxAge (JWT (Cfg st))))
  else if JWT.MaxAge (JWT (Cfg st)) <? Cookie.MaxAge (Cookie (Cfg st))
  then Some (ErrCookieMaxAgeLarger (Cookie.MaxAge (Cookie (Cfg st)))
                                   (JWT.MaxAge (JWT (Cfg st))))
  else nil_error
  end end.

(** *** setDefaults *)

(** [setDefaults]: set default options for most items. *)
Definition setDefaults (st : State) : State :=
  let st := SetConfigName (str ".defaults") st in
  let st := SetConfigType (str "yaml") st in
  let st := AddConfigPath (filepath_Join (RootDir st) (str "config")) st in
  let '(st, _) := ReadInConfig st in
  let '(cfg, err) := UnmarshalKey Branding.LCName (Cfg st) st in
  let st := logError err (setCfg cfg st) in
  let st := logf DebugLevel (str "setDefaults from .defaults.yml %+v") [ArgConfig (Cfg st)] st in
  (* bare minimum for healthcheck achieved *)
  if IsHealthCheck (CmdLine st) then st else st.

(** *** Configure and ValidateConfiguration

    The set-up of the logger itself ([Logging.configureFromCmdline],
    [Logging.configure], [Logging.setLogLevel],
    [Logging.setDevelopmentLogger]) is not part of the model. *)

(** [Configure]: called at the very top of main(). *)
Definition Configure (st : State) : Outcome :=
  andThen (setRootDir st) (fun st =>
  let st := setSecretFile (filepath_Join (RootDir st) (str "config/secret")) st in
  (* bail if we're testing *)
  if underGoTest
  then Returns (logf DebugLevel (str "`go test` detected, not loading regular config") [] st)
  else
  andThen (parseConfig st) (fun st =>
  let st := setDefaults st in
  let st := setCfg (cleanClaimsHeaders (Cfg st)).1 st in
  let st := if negb (port (CmdLine st) =? -1)
            then setCfg (setPort (port (CmdLine st)) (Cfg st)) st else st in
  Returns st)).

(** [ValidateConfiguration]: confirm the Configuration is valid. *)
Definition ValidateConfiguration (st : State) : Outcome :=
  let '(errT, st) := basicTest st in
  match errT with
  | Some e => Panics (logf PanicLevel [] [ArgErrorValue e] st)
  | None => Returns (logf DebugLevel (str "viper settings %+v") [] st)
  end.

End Resolution.

(** ** Well-typed documents

    A world in which a configuration file holds, under each top-level key
    of the shape of [Config], a section where every key of the schema is
    either absent or present with a value of the type of its field.
    mapstructure decodes such a section into the configuration it is given
    as viper calls it (no [ZeroFields]): a key that is absent leaves the
    field as it is, a key that is present writes the field; a slice is
    written element by element over the slice that is there, a map is
    merged into the map that is there.  The conversions and the type errors
    of weakly typed input do not arise. *)

Module Typed.

Module JWTDoc.
Record t := mk {
  maxAge : option Z;
  issuer : option gostring;
  secret : option gostring;
  compress : option bool }.
Definition none : t := mk None None None None.
End JWTDoc.

Module CookieDoc.
Record t := mk {
  name : option gostring;
  domain : option gostring;
  secure : option bool;
  httpOnly : option bool;
  maxage : option Z;
  sameSite : option gostring }.
Definition none : t := mk None None None None None None.
End CookieDoc.

Module HeadersDoc.
Record t := mk {
  jwt : option gostring;
  user : option gostring;
  querystring : option gostring;
  redirect : option gostring;
  success : option gostring;
  claimheader : option gostring;
  claims : option (list gostring);
  accesstoken : option gostring;
  idtoken : option gostring;
  claimscleaned : option (gmap gostring gostring) }.
Definition none : t := mk None None None None None None None None None None.
End HeadersDoc.

Module SessionDoc.
Record t := mk {
  name : option gostring;
  key : option gostring }.
Definition none : t := mk None None.
End SessionDoc.

Module ConfigDoc.
Record t := mk {
  logLevel : option gostring;
  listen : option gostring;
  port : option Z;
  domains : option (list gostring);
  whitelist : option (list gostring);
  teamWhitelist : option (list gostring);
  allowAllUsers : option bool;
  publicAccess : option bool;
  jwt : option JWTDoc.t;
  cookie : option CookieDoc.t;
  headers : option HeadersDoc.t;
  session : option SessionDoc.t;
  test_url : option gostring;
  test_urls : option (list gostring);
  testing : option bool;
  post_logout_redirect_uris : option (list gostring) }.
Definition none : t :=
  mk None None None None None None None None None None None None None None None None.
End ConfigDoc.

(** The content of a file: the sections of the shape of [Config], by
    their top-level key, and the other keys that are set, by their dotted
    path (those under [oauth]). *)
Record Document := mkDocument {
  sections : list (gostring * ConfigDoc.t);
  otherKeys : list gostring }.

(** Decoding a value into a field. *)
Definition put {A} (o : option A) (cur : A) : A :=
  match o with Some v => v | None => cur end.

(** Decoding a list into a slice: element by element, over what is there. *)
Definition putSlice {A} (o : option (list A)) (cur : list A) : list A :=
  match o with Some l => l ++ drop (length l) cur | None => cur end.

(** Decoding a map into a map: merged into what is there. *)
Definition putMap (o : option (gmap gostring gostring)) (cur : gmap gostring gostring) :=
  match o with Some m => m ∪ cur | None => cur end.

Definition putJWT (o : option JWTDoc.t) (cur : JWT.t) : JWT.t :=
  match o with
  | None => cur
  | Some d =>
      JWT.mk (put (JWTDoc.maxAge d) (JWT.MaxAge cur))
             (put (JWTDoc.issuer d) (JWT.Issuer cur))
             (put (JWTDoc.secret d) (JWT.Secret cur))
             (put (JWTDoc.compress d) (JWT.Compress cur))
  end.

Definition putCookie (o : option CookieDoc.t) (cur : Cookie.t) : Cookie.t :=
  match o with
  | None => cur
  | Some d =>
      Cookie.mk (put (CookieDoc.name d) (Cookie.Name cur))
                (put (CookieDoc.domain d) (Cookie.Domain cur))
                (put (CookieDoc.secure d) (Cookie.Secure cur))
                (put (CookieDoc.httpOnly d) (Cookie.HTTPOnly cur))
                (put (CookieDoc.maxage d) (Cookie.MaxAge cur))
                (put (CookieDoc.sameSite d) (Cookie.SameSite cur))
  end.

Definition putHeaders (o : option HeadersDoc.t) (cur : Headers.t) : Headers.t :=
  match o with
  | None => cur
  | Some d =>
      Headers.mk (put (HeadersDoc.jwt d) (Headers.JWT cur))
                 (put (HeadersDoc.user d) (Headers.User cur))
                 (put (HeadersDoc.querystring d) (Headers.QueryString cur))
                 (put (HeadersDoc.redirect d) (Headers.Redirect cur))
                 (put (HeadersDoc.success d) (Headers.Success cur))
                 (put (HeadersDoc.claimheader d) (Headers.ClaimHeader cur))
                 (putSlice (HeadersDoc.claims d) (Headers.Claims cur))
                 (put (HeadersDoc.accesstoken d) (Headers.AccessToken cur))
                 (put (HeadersDoc.idtoken d) (Headers.IDToken cur))
                 (putMap (HeadersDoc.claimscleaned d) (Headers.ClaimsCleaned cur))
  end.

Definition putSession (o : option SessionDoc.t) (cur : Session.t) : Session.t :=
  match o with
  | None => cur
  | Some d =>
      Session.mk (put (SessionDoc.name d) (Session.Name cur))
                 (put (SessionDoc.key d) (Session.Key cur))
  end.

(** Decoding a section into a configuration. *)
Definition decodeInto (d : ConfigDoc.t) (cur : Config) : Config :=
  mkConfig (put (ConfigDoc.logLevel d) (LogLevel cur))
           (put (ConfigDoc.listen d) (Listen cur))
           (put (ConfigDoc.port d) (Port cur))
           (putSlice (ConfigDoc.domains d) (Domains cur))
           (putSlice (ConfigDoc.whitelist d) (WhiteList cur))
           (putSlice (ConfigDoc.teamWhitelist d) (TeamWhiteList cur))
           (put (ConfigDoc.allowAllUsers d) (AllowAllUsers cur))
           (put (ConfigDoc.publicAccess d) (PublicAccess cur))
           (putJWT (ConfigDoc.jwt d) (JWT cur))
           (putCookie (ConfigDoc.cookie d) (Cookie cur))
           (putHeaders (ConfigDoc.headers d) (Headers cur))
           (putSession (ConfigDoc.session d) (Session cur))
           (put (ConfigDoc.test_url d) (TestURL cur))
           (putSlice (ConfigDoc.test_urls d) (TestURLs cur))
           (put (ConfigDoc.testing d) (Testing cur))
           (putSlice (ConfigDoc.post_logout_redirect_uris d) (LogoutRedirectURLs cur)).

(** viper looks keys up in lower case. *)
Definition toLowerByte (c : ascii) : ascii :=
  let b := byteZ c in if (65 <=? b) && (b <=? 90) then byte_of (b + 32) else c.

Definition ToLower (s : gostring) : gostring := map toLowerByte s.

Fixpoint section (key : gostring) (l : list (gostring * ConfigDoc.t)) : option ConfigDoc.t :=
  match l with
  | [] => None
  | (k, d) :: l' => if bool_decide (k = key) then Some d else section key l'
  end.

Definition decode (doc : Document) (key : gostring) (cur : Config) : Config * ext_error :=
  match section (ToLower key) (sections doc) with
  | Some d => (decodeInto d cur, None)
  | None => (cur, None)
  end.

(** The keys of a section that are present, in lower case. *)
Definition present {A} (name : string) (o : option A) : list gostring :=
  match o with Some _ => [str name] | None => [] end.

Definition under {A} (name : string) (o : option A) (keys : A -> list gostring)
  : list gostring :=
  match o with
  | Some d => str name :: map (fun k => str name ++ str "." ++ k) (keys d)
  | None => []
  end.

Definition keysJWT (d : JWTDoc.t) : list gostring :=
  present "maxage" (JWTDoc.maxAge d) ++ present "issuer" (JWTDoc.issuer d)
  ++ present "secret" (JWTDoc.secret d) ++ present "compress" (JWTDoc.compress d).

Definition keysCookie (d : CookieDoc.t) : list gostring :=
  present "name" (CookieDoc.name d) ++ present "domain" (CookieDoc.domain d)
  ++ present "secure" (CookieDoc.secure d) ++ present "httponly" (CookieDoc.httpOnly d)
  ++ present "maxage" (CookieDoc.maxage d) ++ present "samesite" (CookieDoc.sameSite d).

Definition keysHeaders (d : HeadersDoc.t) : list gostring :=
  present "jwt" (HeadersDoc.jwt d) ++ present "user" (HeadersDoc.user d)
  ++ present "querystring" (HeadersDoc.querystring d)
  ++ present "redirect" (HeadersDoc.redirect d) ++ present "success" (HeadersDoc.success d)
  ++ present "claimheader" (HeadersDoc.claimheader d)
  ++ present "claims" (HeadersDoc.claims d)
  ++ present "accesstoken" (HeadersDoc.accesstoken d)
  ++ present "idtoken" (HeadersDoc.idtoken d)
  ++ present "claimscleaned" (HeadersDoc.claimscleaned d).

Definition keysSession (d : SessionDoc.t) : list gostring :=
  present "name" (SessionDoc.name d) ++ present "key" (SessionDoc.key d).

Definition keysConfig (d : ConfigDoc.t) : list gostring :=
  present "loglevel" (ConfigDoc.logLevel d) ++ present "listen" (ConfigDoc.listen d)
  ++ present "port" (ConfigDoc.port d) ++ present "domains" (ConfigDoc.domains d)
  ++ present "whitelist" (ConfigDoc.whitelist d)
  ++ present "teamwhitelist" (ConfigDoc.teamWhitelist d)
  ++ present "allowallusers" (ConfigDoc.allowAllUsers d)
  ++ present "publicaccess" (ConfigDoc.publicAccess d)
  ++ under "jwt" (ConfigDoc.jwt d) keysJWT
  ++ under "cookie" (ConfigDoc.cookie d) keysCookie
  ++ under "headers" (ConfigDoc.headers d) keysHeaders
  ++ under "session" (ConfigDoc.session d) keysSession
  ++ present "test_url" (ConfigDoc.test_url d)
  ++ present "test_urls" (ConfigDoc.test_urls d)
  ++ present "testing" (ConfigDoc.testing d)
  ++ present "post_logout_redirect_uris" (ConfigDoc.post_logout_redirect_uris d).

Definition keys (doc : Document) : list gostring :=
  otherKeys doc
  ++ concat (map (fun '(k, d) => k :: map (fun f => k ++ str "." ++ f) (keysConfig d))
                 (sections doc)).

Definition isSet (doc : Document) (key : gostring) : bool :=
  bool_decide (ToLower key ∈ keys doc).

(** The world of well-typed documents, given what the files hold, what
    the strict decoding says, the environment and the result of the OAuth
    check. *)
Definition world (files : Settings -> Document + gostring) (strict : Document -> ext_error)
    (getenv : gostring -> gostring) (oauth : ext_error) : World :=
  {| Doc := Document;
     viper_readFile := files;
     viper_isSet := isSet;
     viper_decode := decode;
     viper_decodeStrict := strict;
     absPathify := fun p => p;
     Getenv := getenv;
     Executable := inl (str "/opt/vouch/vouch-proxy");
     filepath_Abs := fun p => p;
     filepath_Dir := fun _ => str "/opt/vouch";
     filepath_Join := fun a b => a ++ str "/" ++ b;
     underGoTest := false;
     oauthBasicTest := oauth |}.

End Typed.


(** The state a process starts in. *)
Definition initialState {W : World} (flags : cmdLineFlags) : State :=
  mkState zeroConfig [] [] flags noSettings None [].

Definition noFlags : cmdLineFlags := mkFlags false (-1) [] 0 false.

(** ** Some documents *)

Module Examples.
Import Typed.

Definition oauthKeys : list gostring := [str "oauth.provider"; str "oauth.client_id"].

(** [vouch: {cookie: {name: primary-cookie}}] *)
Definition primaryDoc : Document :=
  mkDocument
    [(str "vouch",
      ConfigDoc.mk None None None None None None None None None
        (Some (CookieDoc.mk (Some (str "primary-cookie")) None None None None None))
        None None None None None None)]
    oauthKeys.

(** [vouch: {cookie: {name: VouchCookie, maxage: 240}}] *)
Definition defaultsDoc : Document :=
  mkDocument
    [(str "vouch",
      ConfigDoc.mk None None None None None None None None None
        (Some (CookieDoc.mk (Some (str "VouchCookie")) None None None (Some 240) None))
        None None None None None None)]
    [].

(** [vouch: {listen: 127.0.0.1, port: 9090}] and
    [lasso: {domains: [old.example.com], cookie: {name: Lasso}}] *)
Definition legacyDoc : Document :=
  mkDocument
    [(str "vouch",
      ConfigDoc.mk None (Some (str "127.0.0.1")) (Some 9090) None None None None None None
        None None None None None None None);
     (str "lasso",
      ConfigDoc.mk None None None (Some [str "old.example.com"]) None None None None None
        (Some (CookieDoc.mk (Some (str "Lasso")) None None None None None))
        None None None None None None)]
    oauthKeys.

(** [vouch: {domains: [example.com], jwt: {maxAge: 50}, cookie: {maxage: 100}}] *)
Definition maxAgeDoc : Document :=
  mkDocument
    [(str "vouch",
      ConfigDoc.mk None None None (Some [str "example.com"]) None None None None
        (Some (JWTDoc.mk (Some 50) None None None))
        (Some (CookieDoc.mk None None None None (Some 100) None))
        None None None None None None)]
    oauthKeys.

(** The file [.defaults.yml] holds [defaults], the configuration file
    holds [primary]. *)
Definition files (primary defaults : Document) (s : Settings) : Document + gostring :=
  if bool_decide (configName s = str ".defaults") then inl defaults else inl primary.

(** No environment variable is set, the strict decoding and the OAuth
    check find nothing to report. *)
Definition worldOf (primary defaults : Document) : World :=
  world (files primary defaults) (fun _ => None) (fun _ => []) None.

(** The state once the configuration file [doc] has been read and its
    key [vouch] decoded. *)
Definition loaded (doc : Document) : @State (worldOf doc defaultsDoc) :=
  let W := worldOf doc defaultsDoc in
  setCfg (W := W) (decode doc Branding.LCName zeroConfig).1
         (setDoc (W := W) (Some doc)
                 (mkState (W := W) zeroConfig [] [] noFlags noSettings None [])).

End Examples.

(** ** Auxiliary definitions of the properties *)

(** Replacing every instance of one byte by another is a map over the
    bytes. *)
Definition subst_byte (c d : ascii) (b : ascii) : ascii :=
  if bool_decide (b = c) then d else b.

Definition hyphen : ascii := "-"%char.

(** A byte of the disallowed set becomes a hyphen. *)
Definition dashDisallowed (b : ascii) : ascii :=
  if bool_decide (b ∈ disallowed) then hyphen else b.

(** A rune outside [33, 126] becomes a hyphen. *)
Definition dashNonPrintable (r : Z) : Z :=
  if (r <? 33) || (126 <? r) then 45 else r.

(** A map over bytes, read as a map over code points below 128. *)
Definition lift (f : ascii -> ascii) (r : Z) : Z :=
  if r <? 128 then byteZ (f (byte_of r)) else r.

(** A byte in [33, 126]. *)
Definition printable (b : ascii) : Prop := 33 <= byteZ b <= 126.

(** The part of a header after the configured prefix. *)
Definition afterPrefix (Cfg : Config) (header : gostring) : gostring :=
  drop (length (Headers.ClaimHeader (Headers Cfg))) header.

(** C3, as the claim states it: of two different raw claims with the same
    header name, only the later one keeps its entry. *)
Definition laterClaimWins (Cfg : Config) : Prop :=
  let claims := Headers.Claims (Headers Cfg) in
  let m := Headers.ClaimsCleaned (Headers (cleanClaimsHeaders Cfg).1) in
  forall (i j : nat) c1 c2,
    (i < j)%nat -> claims !! i = Some c1 -> claims !! j = Some c2 -> c1 <> c2 ->
    (claimToHeader Cfg c1).1 = (claimToHeader Cfg c2).1 ->
    m !! c1 = None.


(** The claim once a leading [http://] and then a leading [https://] are
    stripped: the first two statements of [claimToHeader]. *)
Definition stripScheme (claim : gostring) : gostring :=
  strings.TrimPrefix (strings.TrimPrefix claim (str "http://")) (str "https://").

(** A byte that is not clean becomes a hyphen. *)
Definition dashByte (b : ascii) : ascii := if cleanByte b then b else hyphen.

(** An ASCII control character, a space or DEL. *)
Definition controlByte (c : ascii) : bool :=
  (byteZ c <? 33) || (byteZ c =? 127).

(** The configuration with another derived map. *)
Definition withCleaned (m : gmap gostring gostring) (c : Config) : Config :=
  let h := Headers c in
  mkConfig (LogLevel c) (Listen c) (Port c) (Domains c) (WhiteList c) (TeamWhiteList c)
    (AllowAllUsers c) (PublicAccess c) (JWT c) (Cookie c)
    (Headers.mk (Headers.JWT h) (Headers.User h) (Headers.QueryString h)
       (Headers.Redirect h) (Headers.Success h) (Headers.ClaimHeader h)
       (Headers.Claims h) (Headers.AccessToken h) (Headers.IDToken h) m)
    (Session c) (TestURL c) (TestURLs c) (Testing c) (LogoutRedirectURLs c).

(** What the canonicalization makes of one byte: upper case where [upper]
    holds, lower case elsewhere. *)
Definition canonByte (upper : bool) (c : ascii) : ascii :=
  let b := byteZ c in
  if upper && (97 <=? b) && (b <=? 122) then byte_of (b - http.toLower)
  else if negb upper && (65 <=? b) && (b <=? 90) then byte_of (b + http.toLower)
  else c.

(** A byte that may follow the prefix: a header character, or a byte with
    the high bit set. *)
Definition headerCharOrHigh (c : ascii) : bool := headerChar c || (128 <=? byteZ c).


(** The configuration [parseConfig] settles on, given what the key [vouch]
    decodes to ([primary]) and what the key [lasso] decodes to ([legacy]). *)
Definition settled (primary legacy : Config) : Config :=
  if (length (Domains primary) =? 0)%nat && negb (length (Domains legacy) =? 0)%nat
  then legacy else primary.

(** The state with another log. *)
Definition withLog {W : World} (l : list LogEntry) (st : State) : State :=
  mkState (Cfg st) (RootDir st) (secretFile st) (CmdLine st) (viper st) (viper_config st) l.

(** The warning about a short secret, for a secret of [n] characters. *)
Definition secretWarning (n : Z) : LogEntry :=
  mkLog ErrorLevel secretWarningFormat
        [ArgInt n; ArgString (Branding.LCName ++ str ".jwt.secret"); ArgInt minBase64Length].

(** What an error of [basicTest] reports, read against the state. *)
Definition justified {W : World} (st : State) (e : error_value) : Prop :=
  match e with
  | ErrExternal msg => oauthBasicTest = Some msg
  | ErrRequiredOption opt => opt ∈ RequiredOptions /\ IsSet opt st = false
  | ErrDomainsOrAllowAllUsers =>
      IsSet (Branding.LCName ++ str ".allowAllUsers") st = false
      /\ IsSet (Branding.LCName ++ str ".domains") st = false
  | ErrCookieMaxAgeNegative n => n = Cookie.MaxAge (Cookie (Cfg st)) /\ n < 0
  | ErrJWTMaxAge n => n = JWT.MaxAge (JWT (Cfg st)) /\ n <= 0
  | ErrCookieMaxAgeLarger c j =>
      c = Cookie.MaxAge (Cookie (Cfg st)) /\ j = JWT.MaxAge (JWT (Cfg st)) /\ j < c
  end.

Module MoreExamples.
Import Typed Examples.

(** No configuration file can be read. *)
Definition unreadable : World :=
  world (fun _ => inr (str "open /opt/vouch/config/config.yaml: no such file or directory"))
        (fun _ => None) (fun _ => []) None.

(** [VOUCH_CONFIG] names the configuration file. *)
Definition envConfig : World :=
  world (files primaryDoc defaultsDoc) (fun _ => None)
        (fun k => if bool_decide (k = str "VOUCH_CONFIG") then str "/etc/vouch/config.yml" else [])
        None.

(** [vouch: {domains: [example.com],
             headers: {claimheader: X-Vouch-IdP-Claims-, claims: [groups, given_name]}}] *)
Definition claimsDoc : Document :=
  mkDocument
    [(str "vouch",
      ConfigDoc.mk None None None (Some [str "example.com"]) None None None None None None
        (Some (HeadersDoc.mk None None None None None (Some (str "X-Vouch-IdP-Claims-"))
                 (Some [str "groups"; str "given_name"]) None None None))
        None None None None None)]
    oauthKeys.

(** [vouch: {domains: [example.com], jwt: {maxAge: 240, secret: tooshort},
             cookie: {maxage: 100}}] *)
Definition shortSecretDoc : Document :=
  mkDocument
    [(str "vouch",
      ConfigDoc.mk None None None (Some [str "example.com"]) None None None None
        (Some (JWTDoc.mk (Some 240) None (Some (str "tooshort")) None))
        (Some (CookieDoc.mk None None None None (Some 100) None))
        None None None None None None)]
    oauthKeys.

(** [-port 8080] on the command line. *)
Definition portFlag : cmdLineFlags := mkFlags false 8080 [] 0 false.

(** [-config /etc/vouch.yml] on the command line. *)
Definition configFlag : cmdLineFlags := mkFlags false (-1) (str "/etc/vouch.yml") 0 false.

End MoreExamples.

(** What [parseConfig], [setDefaults] and [basicTest] leave as it is: the
    root directory, the secret file and the flags. *)
Definition fixed {W : World} (st : State) : gostring * gostring * cmdLineFlags :=
  (RootDir st, secretFile st, CmdLine st).

(** The state [Configure] ends in. *)
Definition configured {W : World} (flags : cmdLineFlags) : State :=
  match Configure (initialState flags) with
  | Returns st | Exits st | Panics st => st
  end.
(** * Running the model *)

Example header_roles :
  claimToHeader (withClaims (str "X-Vouch-IdP-Claims-") []) (str "https://example.com/roles")
  = (str "X-Vouch-IdP-Claims-Example-Com-Roles", nil_error).
Proof. vm_compute. reflexivity. Qed.

Example header_bang :
  claimToHeader (withClaims (str "X-Vouch-IdP-Claims-") []) (str "a!b")
  = (str "X-Vouch-IdP-Claims-A!b", nil_error).
Proof. vm_compute. reflexivity. Qed.

Example header_nonascii :
  claimToHeader (withClaims (str "X-") []) (str "a b" ++ utf8.EncodeRune 233 ++ str "c" ++ utf8.EncodeRune 233)
  = (str "X-A-B-C-", nil_error).
Proof. vm_compute. reflexivity. Qed.

Example header_illformed :
  claimToHeader (withClaims (str "X-") []) (str "ab" ++ [byte_of 255])
  = (str "X-ab" ++ [byte_of 255], nil_error).
Proof. vm_compute. reflexivity. Qed.

Example canonical_accept :
  http.CanonicalHeaderKey (str "accept-encoding") = str "Accept-Encoding".
Proof. reflexivity. Qed.

Example canonical_space :
  http.CanonicalHeaderKey (str "accept encoding") = str "accept encoding".
Proof. reflexivity. Qed.

Example replace_first : strings.Replace (str "a.b.c") (str ".") (str "-") 1 = str "a-b.c".
Proof. reflexivity. Qed.

Example replace_all : strings.ReplaceAll (str "a.b.c.") (str ".") (str "-") = str "a-b-c-".
Proof. reflexivity. Qed.

Example replace_overlap : strings.ReplaceAll (str "aaaaa") (str "aa") (str "b") = str "bba".
Proof. reflexivity. Qed.

Example replace_empty : strings.Replace (str "abc") [] (str "-") (-1) = str "-a-b-c-".
Proof. reflexivity. Qed.

Example decode_ascii : utf8.DecodeRuneInString (str "a") = (97, 1%nat).
Proof. reflexivity. Qed.

Example decode_bad : utf8.DecodeRuneInString [byte_of 255] = (utf8.RuneError, 1%nat).
Proof. reflexivity. Qed.

Example encode_eacute : map byteZ (utf8.EncodeRune 233) = [195; 169].
Proof. reflexivity. Qed.

Example range_mixed :
  utf8.range (str "a" ++ utf8.EncodeRune 233 ++ [byte_of 255] ++ utf8.EncodeRune 128512)
  = [97; 233; utf8.RuneError; 128512].
Proof. reflexivity. Qed.

(** * Properties *)

(** ** Bytes *)

Lemma byteZ_range (a : ascii) : 0 <= byteZ a < 256.
Proof. destruct a as [[] [] [] [] [] [] [] []]; vm_compute; split; congruence. Qed.

Lemma byte_of_byteZ (a : ascii) : byte_of (byteZ a) = a.
Proof. destruct a as [[] [] [] [] [] [] [] []]; reflexivity. Qed.

Lemma byteZ_byte_of (z : Z) : 0 <= z < 256 -> byteZ (byte_of z) = z.
Proof.
  intros Hz. unfold byteZ, byte_of.
  change 255 with (Z.ones 8). rewrite Z.land_ones by lia.
  change (2 ^ 8) with 256. rewrite Z.mod_small by lia.
  rewrite N_ascii_embedding; lia.
Qed.

Lemma byteZ_inj (a b : ascii) : byteZ a = byteZ b -> a = b.
Proof. intros H. rewrite <- (byte_of_byteZ a), <- (byte_of_byteZ b). by rewrite H. Qed.

(** ** UTF-8: decoding an encoded scalar value *)

Module utf8_facts.
Import utf8.

Lemma lor_add x y k : 0 <= k -> 0 <= y < 2 ^ k -> Z.lor (x * 2 ^ k) y = x * 2 ^ k + y.
Proof.
  intros Hk Hy.
  assert (Hl : Z.land (x * 2 ^ k) y = 0).
  { apply Z.bits_inj'. intros n Hn. rewrite Z.land_spec, Z.bits_0.
    destruct (Z.lt_ge_cases n k) as [Hlt|Hge].
    - rewrite Z.mul_pow2_bits_low by lia. reflexivity.
    - destruct (Z.eq_dec y 0) as [->|Hy0].
      + rewrite Z.bits_0. apply andb_false_r.
      + rewrite (Z.bits_above_log2 y n); [apply andb_false_r|lia|].
        assert (Z.log2 y < k) by (apply Z.log2_lt_pow2; lia). lia. }
  pose proof (Z.add_lor_land (x * 2 ^ k) y). lia.
Qed.

Lemma land_mask a k : 0 <= k -> Z.land a (2 ^ k - 1) = a mod 2 ^ k.
Proof. intros Hk. rewrite <- Z.land_ones by lia. f_equal. rewrite Z.ones_equiv. lia. Qed.

Lemma uint32_small r : 0 <= r < 2 ^ 32 -> Z.land r 4294967295 = r.
Proof. intros H. change 4294967295 with (2 ^ 32 - 1). rewrite land_mask by lia. apply Z.mod_small; lia. Qed.

Lemma lor128 d : 0 <= d < 64 -> Z.lor 128 d = 128 + d.
Proof. intros H. change 128 with (2 * 2 ^ 6). apply lor_add; lia. Qed.
Lemma lor192 a : 0 <= a < 32 -> Z.lor 192 a = 192 + a.
Proof. intros H. change 192 with (6 * 2 ^ 5). apply lor_add; lia. Qed.
Lemma lor224 a : 0 <= a < 16 -> Z.lor 224 a = 224 + a.
Proof. intros H. change 224 with (14 * 2 ^ 4). apply lor_add; lia. Qed.
Lemma lor240 a : 0 <= a < 8 -> Z.lor 240 a = 240 + a.
Proof. intros H. change 240 with (30 * 2 ^ 3). apply lor_add; lia. Qed.

Lemma land63 a : Z.land a maskx = a mod 64.
Proof. unfold maskx. change 63 with (2 ^ 6 - 1). apply land_mask. lia. Qed.

Ltac cmp :=
  unfold MaxRune, surrogateMin, surrogateMax, locb, hicb, as_, xx in *;
  repeat match goal with
    | |- context [?a <? ?b] => destruct (Z.ltb_spec a b); try lia
    | |- context [?a <=? ?b] => destruct (Z.leb_spec a b); try lia
    | |- context [?a =? ?b] => destruct (Z.eqb_spec a b); try lia
    end.

Lemma encode1 r : 0 <= r <= 127 -> EncodeRune r = [byte_of r].
Proof. intros H. unfold EncodeRune. rewrite uint32_small by lia. cmp. reflexivity. Qed.

Lemma encode2 r : 128 <= r <= 2047 ->
  EncodeRune r = [byte_of (192 + r / 64); byte_of (128 + r mod 64)].
Proof.
  intros H. unfold EncodeRune. rewrite uint32_small by lia. cmp. 
  rewrite land63, Z.shiftr_div_pow2 by lia. change (2 ^ 6) with 64.
  rewrite lor192, lor128; [reflexivity| |]; Z.div_mod_to_equations; lia.
Qed.

Lemma encode3_eq r : 2048 <= r <= 65535 -> ~ (surrogateMin <= r <= surrogateMax) ->
  EncodeRune r = [byte_of (224 + r / 4096); byte_of (128 + (r / 64) mod 64);
                  byte_of (128 + r mod 64)].
Proof.
  intros H Hs. unfold EncodeRune. rewrite uint32_small by lia. cmp; simpl; unfold encode3;
  rewrite !land63, !Z.shiftr_div_pow2 by lia; change (2 ^ 6) with 64; change (2 ^ 12) with 4096;
  (rewrite lor224, !lor128; [reflexivity| | |]; Z.div_mod_to_equations; lia).
Qed.

Lemma encode4_eq r : 65536 <= r <= MaxRune ->
  EncodeRune r = [byte_of (240 + r / 262144); byte_of (128 + (r / 4096) mod 64);
                  byte_of (128 + (r / 64) mod 64); byte_of (128 + r mod 64)].
Proof.
  intros H. unfold EncodeRune. rewrite uint32_small by (unfold MaxRune in H; lia). cmp; simpl;
  rewrite !land63, !Z.shiftr_div_pow2 by lia;
  change (2 ^ 6) with 64; change (2 ^ 12) with 4096; change (2 ^ 18) with 262144;
  (rewrite lor240, !lor128; [reflexivity| | | |]; Z.div_mod_to_equations; lia).
Qed.

Lemma at_0 c s : at_ (c :: s) 0 = byteZ c. Proof. reflexivity. Qed.
Lemma at_1 c0 c s : at_ (c0 :: c :: s) 1 = byteZ c. Proof. reflexivity. Qed.
Lemma at_2 c0 c1 c s : at_ (c0 :: c1 :: c :: s) 2 = byteZ c. Proof. reflexivity. Qed.
Lemma at_3 c0 c1 c2 c s : at_ (c0 :: c1 :: c2 :: c :: s) 3 = byteZ c. Proof. reflexivity. Qed.


Lemma first_ascii b : 0 <= b < 128 -> first b = as_.
Proof. intros H. unfold first. cmp; reflexivity. Qed.
Lemma first_2 b : 194 <= b <= 223 -> first b = 2.
Proof. intros H. unfold first. cmp; reflexivity. Qed.

Lemma decode1 c rest : byteZ c < 128 ->
  DecodeRuneInString (c :: rest) = (byteZ c, 1%nat).
Proof.
  intros H. pose proof (byteZ_range c). unfold DecodeRuneInString.
  rewrite at_0, first_ascii by lia. reflexivity.
Qed.


Lemma first_3 b : 225 <= b <= 239 -> b <> 237 -> first b = 3.
Proof. intros H ?. unfold first. cmp; reflexivity. Qed.
Lemma first_4 b : 241 <= b <= 243 -> first b = 4.
Proof. intros H. unfold first. cmp; reflexivity. Qed.

Lemma lor_add' x y k :
  0 <= k -> 0 <= y < 2 ^ k -> x mod 2 ^ k = 0 -> Z.lor x y = x + y.
Proof.
  intros Hk Hy Hx.
  rewrite (Z.div_mod x (2 ^ k)) at 1 by lia. rewrite Hx, Z.add_0_r, Z.mul_comm.
  rewrite lor_add by lia. rewrite (Z.div_mod x (2 ^ k)) at 2 by lia. lia.
Qed.

Lemma land_mod a m k : m = 2 ^ k - 1 -> 0 <= k -> Z.land a m = a mod 2 ^ k.
Proof. intros -> ?. by apply land_mask. Qed.

(** Turn the bit operations of the decoder into arithmetic. *)
Ltac arith :=
  unfold mask2, mask3, mask4, maskx;
  rewrite ?(land_mod _ 63 6), ?(land_mod _ 31 5), ?(land_mod _ 15 4), ?(land_mod _ 7 3) by (reflexivity || lia);
  rewrite ?Z.shiftl_mul_pow2 by lia;
  change (2 ^ 3) with 8; change (2 ^ 4) with 16; change (2 ^ 5) with 32;
  change (2 ^ 6) with 64; change (2 ^ 12) with 4096; change (2 ^ 18) with 262144.

Ltac in_range :=
  rewrite ?(proj2 (Z.ltb_ge _ _)) by lia; cbn [orb].


(** The decoder once the class [x] of the first byte is known. *)
Ltac decode_class x sz acc :=
  change (Z.to_nat (Z.land x 7)) with sz;
  change (acceptRanges (Z.shiftr x 4)) with acc;
  cbn [fst snd length Nat.ltb Nat.leb]; change (as_ <=? x) with false; cbv iota;
  unfold locb, hicb; in_range; f_equal; arith.

Ltac by_div := Z.div_mod_to_equations; lia.

Lemma decode2 s0 s1 rest : 194 <= s0 <= 223 -> 128 <= s1 <= 191 ->
  DecodeRuneInString (byte_of s0 :: byte_of s1 :: rest)
  = ((s0 - 192) * 64 + (s1 - 128), 2%nat).
Proof.
  intros H0 H1. unfold DecodeRuneInString.
  rewrite at_0, at_1, !byteZ_byte_of by lia.
  rewrite first_2 by lia. decode_class 2 2%nat (128, 191).
  rewrite (lor_add' _ _ 6) by by_div. by_div.
Qed.

Lemma decode3 s0 s1 s2 rest :
  224 <= s0 <= 239 -> 128 <= s1 <= 191 -> 128 <= s2 <= 191 ->
  (s0 = 224 -> 160 <= s1) -> (s0 = 237 -> s1 <= 159) ->
  DecodeRuneInString (byte_of s0 :: byte_of s1 :: byte_of s2 :: rest)
  = ((s0 - 224) * 4096 + (s1 - 128) * 64 + (s2 - 128), 3%nat).
Proof.
  intros H0 H1 H2 Ha Hb. unfold DecodeRuneInString.
  rewrite at_0, at_1, at_2, !byteZ_byte_of by lia.
  assert (Hc : s0 = 224 \/ s0 = 237 \/ (225 <= s0 <= 239 /\ s0 <> 237)) by lia.
  destruct Hc as [->|[->|[? ?]]].
  - specialize (Ha eq_refl). change (first 224) with 19.
    decode_class 19 3%nat (160, 191).
    rewrite (lor_add' (_ * 4096) _ 12), (lor_add' _ _ 6) by by_div. by_div.
  - specialize (Hb eq_refl). change (first 237) with 35.
    decode_class 35 3%nat (128, 159).
    rewrite (lor_add' (_ * 4096) _ 12), (lor_add' _ _ 6) by by_div. by_div.
  - rewrite first_3 by lia. decode_class 3 3%nat (128, 191).
    rewrite (lor_add' (_ * 4096) _ 12), (lor_add' _ _ 6) by by_div. by_div.
Qed.

Lemma decode4 s0 s1 s2 s3 rest :
  240 <= s0 <= 244 -> 128 <= s1 <= 191 -> 128 <= s2 <= 191 -> 128 <= s3 <= 191 ->
  (s0 = 240 -> 144 <= s1) -> (s0 = 244 -> s1 <= 143) ->
  DecodeRuneInString (byte_of s0 :: byte_of s1 :: byte_of s2 :: byte_of s3 :: rest)
  = ((s0 - 240) * 262144 + (s1 - 128) * 4096 + (s2 - 128) * 64 + (s3 - 128), 4%nat).
Proof.
  intros H0 H1 H2 H3 Ha Hb. unfold DecodeRuneInString.
  rewrite at_0, at_1, at_2, at_3, !byteZ_byte_of by lia.
  assert (Hc : s0 = 240 \/ s0 = 244 \/ 241 <= s0 <= 243) by lia.
  destruct Hc as [->|[->|?]].
  - specialize (Ha eq_refl). change (first 240) with 52.
    decode_class 52 4%nat (144, 191).
    rewrite (lor_add' (_ * 262144) _ 18), (lor_add' _ (_ * 64) 12), (lor_add' _ _ 6) by by_div.
    by_div.
  - specialize (Hb eq_refl). change (first 244) with 68.
    decode_class 68 4%nat (128, 143).
    rewrite (lor_add' (_ * 262144) _ 18), (lor_add' _ (_ * 64) 12), (lor_add' _ _ 6) by by_div.
    by_div.
  - rewrite first_4 by lia. decode_class 4 4%nat (128, 191).
    rewrite (lor_add' (_ * 262144) _ 18), (lor_add' _ (_ * 64) 12), (lor_add' _ _ 6) by by_div.
    by_div.
Qed.

(** Decoding the encoding of a scalar value, followed by anything, gives
    the value and the length of its encoding. *)
Lemma decode_encode r rest : scalar r ->
  DecodeRuneInString (EncodeRune r ++ rest) = (r, length (EncodeRune r)).
Proof.
  unfold scalar, MaxRune, surrogateMin, surrogateMax. intros [Hr Hs].
  assert (Hc : r <= 127 \/ 128 <= r <= 2047 \/ 2048 <= r <= 65535 \/ 65536 <= r) by lia.
  destruct Hc as [?|[?|[?|?]]].
  - rewrite encode1 by lia. cbn [app length].
    rewrite decode1; rewrite byteZ_byte_of; (lia || reflexivity).
  - rewrite encode2 by lia. cbn [app length].
    rewrite decode2 by by_div. f_equal. by_div.
  - rewrite encode3_eq by (unfold surrogateMin, surrogateMax; lia). cbn [app length].
    rewrite decode3 by by_div. f_equal. by_div.
  - rewrite encode4_eq by (unfold MaxRune; lia). cbn [app length].
    rewrite decode4 by by_div. f_equal. by_div.
Qed.

Lemma encode_length r : (1 <= length (EncodeRune r))%nat.
Proof. unfold EncodeRune, encode3. repeat case_match; cbn; lia. Qed.

(** Past ASCII, every byte of an encoding has its high bit set. *)
Lemma encode_high r : scalar r -> 128 <= r ->
  Forall (fun b => 128 <= byteZ b) (EncodeRune r).
Proof.
  unfold scalar, MaxRune, surrogateMin, surrogateMax. intros [Hr Hs] Hh.
  assert (Hc : 128 <= r <= 2047 \/ 2048 <= r <= 65535 \/ 65536 <= r) by lia.
  destruct Hc as [?|[?|?]].
  - rewrite encode2 by lia. repeat constructor; rewrite byteZ_byte_of; by_div.
  - rewrite encode3_eq by (unfold surrogateMin, surrogateMax; lia).
    repeat constructor; rewrite byteZ_byte_of; by_div.
  - rewrite encode4_eq by (unfold MaxRune; lia).
    repeat constructor; rewrite byteZ_byte_of; by_div.
Qed.

Lemma decode_width s : s <> [] -> (1 <= snd (DecodeRuneInString s))%nat.
Proof.
  destruct s as [|c s]; [done|]. intros _. unfold DecodeRuneInString.
  cbn [length Nat.ltb Nat.leb]. repeat case_match; cbn; lia.
Qed.

(** Any fuel that covers the length gives the same runes. *)
Lemma range_fuel_enough f1 f2 s :
  (length s <= f1)%nat -> (length s <= f2)%nat -> range_fuel f1 s = range_fuel f2 s.
Proof.
  revert f2 s. induction f1 as [|f1 IH]; intros f2 s H1 H2.
  - destruct s; [|cbn in H1; lia]. by destruct f2.
  - destruct f2 as [|f2]; [destruct s; [done|cbn in H2; lia]|].
    destruct s as [|c s]; [done|]. cbn [range_fuel].
    pose proof (decode_width (c :: s) ltac:(done)) as Hw.
    destruct (DecodeRuneInString (c :: s)) as [r w]. cbn [snd] in Hw.
    f_equal. apply IH; rewrite length_drop; cbn [length] in *; lia.
Qed.

Lemma range_nil : range [] = [].
Proof. reflexivity. Qed.

Lemma range_encode r rest : scalar r -> range (EncodeRune r ++ rest) = r :: range rest.
Proof.
  intros Hr. unfold range. pose proof (encode_length r) as Hl.
  destruct (EncodeRune r ++ rest) as [|c s] eqn:E.
  { apply (f_equal length) in E. rewrite length_app in E. cbn in E. lia. }
  cbn [length range_fuel]. rewrite <- E, decode_encode, drop_app_length by done.
  f_equal. apply range_fuel_enough; [|done].
  apply (f_equal length) in E. rewrite length_app in E. cbn [length] in E. lia.
Qed.

Lemma range_encodeAll rs : Forall scalar rs -> range (encodeAll rs) = rs.
Proof.
  induction 1 as [|r rs Hr _ IH]; [done|].
  unfold encodeAll in *. cbn [map concat]. by rewrite range_encode, IH.
Qed.

Lemma scalar_byte c : byteZ c < 128 -> scalar (byteZ c).
Proof.
  pose proof (byteZ_range c). unfold scalar, MaxRune, surrogateMin, surrogateMax. lia.
Qed.

Lemma encode_byte c : byteZ c < 128 -> EncodeRune (byteZ c) = [c].
Proof.
  intros H. pose proof (byteZ_range c). rewrite encode1 by lia. by rewrite byte_of_byteZ.
Qed.

(** An ASCII string is ranged over byte by byte. *)
Lemma range_ascii s : Forall (fun c => byteZ c < 128) s -> range s = map byteZ s.
Proof.
  induction 1 as [|c s Hc _ IH]; [done|].
  cbn [map]. rewrite <- IH, <- (range_encode (byteZ c) s) by (by apply scalar_byte).
  by rewrite encode_byte.
Qed.

End utf8_facts.

(** ** Package strings: replacing a byte, replacing a first instance *)

Module strings_facts.
Import strings.

Lemma HasPrefix_app p t : HasPrefix (p ++ t) p = true.
Proof.
  induction p as [|c p IH]; [done|]. cbn. rewrite IH, andb_true_r.
  by apply Ascii.eqb_eq.
Qed.

Lemma HasPrefix_inv s p : HasPrefix s p = true -> s = p ++ drop (length p) s.
Proof.
  revert s. induction p as [|c p IH]; intros s H; [done|].
  destruct s as [|a s]; [done|]. cbn in H. apply andb_true_iff in H as [Ha Hp].
  apply Ascii.eqb_eq in Ha as ->. cbn. f_equal. by apply IH.
Qed.

Lemma HasPrefix_head_ne a c s p : a <> c -> HasPrefix (a :: s) (c :: p) = false.
Proof. intros Hne. cbn. by apply Ascii.eqb_neq in Hne as ->. Qed.

Lemma Index_unfold s substr :
  Index s substr = if HasPrefix s substr then Some 0%nat
                   else match s with [] => None | _ :: s' => S <$> Index s' substr end.
Proof. by destruct s. Qed.

(** No instance where the first byte of [old] does not occur. *)
Lemma Index_notin c old s : c ∉ s -> Index s (c :: old) = None.
Proof.
  induction s as [|a s IH]; intros Hc; [done|].
  apply not_elem_of_cons in Hc as [Hne Hc].
  cbn [Index]. rewrite HasPrefix_head_ne by done. by rewrite IH.
Qed.

(** The first instance starts where the first byte of [old] first occurs. *)
Lemma Index_first c old P R :
  c ∉ P -> Index (P ++ (c :: old) ++ R) (c :: old) = Some (length P).
Proof.
  induction P as [|a P IH]; intros Hc.
  - cbn [app length]. change (c :: old ++ R) with ((c :: old) ++ R).
    by rewrite Index_unfold, HasPrefix_app.
  - apply not_elem_of_cons in Hc as [Hne Hc].
    change ((a :: P) ++ (c :: old) ++ R) with (a :: (P ++ (c :: old) ++ R)).
    rewrite Index_unfold, HasPrefix_head_ne by done. by rewrite IH.
Qed.

Lemma count_loop_nonneg fuel s old : 0 <= count_loop fuel s old.
Proof.
  revert s. induction fuel as [|fuel IH]; intros s; cbn; [lia|].
  destruct (Index s old); [|lia]. specialize (IH (drop (n + length old) s)). lia.
Qed.

Lemma Index_bound s old i : Index s old = Some i -> (i + length old <= length s)%nat.
Proof.
  revert i. induction s as [|a s IH]; intros i; rewrite Index_unfold.
  - destruct (HasPrefix [] old) eqn:E; [|done]. intros [= <-].
    apply HasPrefix_inv in E. apply (f_equal length) in E.
    rewrite length_app in E. cbn in *. lia.
  - destruct (HasPrefix (a :: s) old) eqn:E.
    + intros [= <-]. apply HasPrefix_inv in E. apply (f_equal length) in E.
      rewrite length_app in E. cbn in *. lia.
    + destruct (Index s old) as [j|]; [|done]. intros [= <-].
      specialize (IH j eq_refl). cbn. lia.
Qed.

(** The fuel of [Count] is enough: more fuel counts the same. *)
Lemma count_loop_fuel c old fuel1 fuel2 s :
  (length s < fuel1)%nat -> (length s < fuel2)%nat ->
  count_loop fuel1 s (c :: old) = count_loop fuel2 s (c :: old).
Proof.
  revert fuel2 s. induction fuel1 as [|fuel1 IH]; intros fuel2 s H1 H2; [lia|].
  destruct fuel2 as [|fuel2]; [lia|]. cbn [count_loop].
  destruct (Index s (c :: old)) as [i|] eqn:E; [|done].
  apply Index_bound in E. cbn [length] in *.
  f_equal. apply IH; rewrite length_drop; lia.
Qed.

(** [Replace] with count 1, when the first byte of [old] does not occur
    before the instance at hand. *)
Lemma Replace_first c old new P R :
  c ∉ P -> c :: old <> new ->
  Replace (P ++ (c :: old) ++ R) (c :: old) new 1 = P ++ new ++ R.
Proof.
  intros Hc Hne. unfold Replace.
  rewrite bool_decide_eq_false_2 by done. cbn [orb Z.eqb].
  unfold Count. cbn [count_loop]. rewrite Index_first by done.
  set (m := 1 + _).
  assert (Hm : 1 <= m).
  { subst m. pose proof (count_loop_nonneg (length (P ++ (c :: old) ++ R))
      (drop (length P + length (c :: old)) (P ++ (c :: old) ++ R)) (c :: old)). lia. }
  destruct (Z.eqb_spec m 0); [lia|].
  destruct (Z.ltb_spec m 1); [lia|]. cbn [Z.ltb orb Z.compare].
  change (Z.to_nat 1) with 1%nat. cbn [replace_loop]. rewrite Index_first by done.
  rewrite take_app_length. rewrite drop_app_add', drop_app_length by done. done.
Qed.

Lemma subst_byte_notin c d s : c ∉ s -> map (subst_byte c d) s = s.
Proof.
  induction s as [|a s IH]; intros Hc; [done|].
  apply not_elem_of_cons in Hc as [Hne Hc]. cbn. rewrite IH by done.
  unfold subst_byte. by rewrite bool_decide_eq_false_2.
Qed.

Lemma replace_loop_byte c d fuel i s :
  (length s < fuel)%nat ->
  replace_loop (Z.to_nat (count_loop fuel s [c])) i s [c] [d] = map (subst_byte c d) s.
Proof.
  revert i s. induction fuel as [|fuel IH]; intros i s Hf; [lia|].
  destruct (decide (c ∈ s)) as [Hin|Hout].
  - apply list_elem_of_split_l in Hin as (P & R & -> & HP).
    cbn [count_loop]. change (c :: R) with ([c] ++ R). rewrite Index_first by done.
    rewrite drop_app_add', drop_app_length by done.
    pose proof (count_loop_nonneg fuel R [c]).
    rewrite Z2Nat.inj_add by lia. change (Z.to_nat 1) with 1%nat. cbn [Nat.add replace_loop].
    rewrite Index_first by done.
    rewrite take_app_length, drop_app_add', drop_app_length by done.
    rewrite IH by (rewrite length_app in Hf; cbn in Hf; lia).
    rewrite map_app, (subst_byte_notin c d P) by done. cbn. f_equal. f_equal.
    unfold subst_byte. by rewrite bool_decide_eq_true_2.
  - cbn [count_loop]. rewrite Index_notin by done. cbn.
    by rewrite subst_byte_notin.
Qed.

Lemma ReplaceAll_byte c d s : c <> d -> ReplaceAll s [c] [d] = map (subst_byte c d) s.
Proof.
  intros Hne. unfold ReplaceAll, Replace.
  rewrite bool_decide_eq_false_2 by congruence. cbn [orb Z.eqb].
  unfold Count. pose proof (replace_loop_byte c d (S (length s)) 0 s ltac:(lia)) as H.
  destruct (Z.eqb_spec (count_loop (S (length s)) s [c]) 0) as [E|E].
  - rewrite E in H. by rewrite <- H.
  - cbn [Z.ltb Z.compare orb]. done.
Qed.

Lemma ReplaceAll_notin c new s : c ∉ s -> ReplaceAll s [c] new = s.
Proof.
  intros Hc. unfold ReplaceAll, Replace. destruct (_ || _); [done|].
  unfold Count. cbn [count_loop]. by rewrite Index_notin.
Qed.

(** [TrimPrefix] drops the prefix or nothing. *)
Lemma TrimPrefix_cases s p :
  s = p ++ TrimPrefix s p \/ TrimPrefix s p = s.
Proof.
  unfold TrimPrefix. destruct (HasPrefix s p) eqn:E; [left|by right].
  by apply HasPrefix_inv.
Qed.

End strings_facts.

(** ** The two loops of claimToHeader *)

Module claim_facts.
Import utf8 utf8_facts strings strings_facts.

Lemma disallowed_ascii : Forall (fun c => byteZ c < 128) disallowed.
Proof. repeat constructor. Qed.

Lemma hyphen_allowed : hyphen ∉ disallowed.
Proof. apply (bool_decide_unpack _). by vm_compute. Qed.

(** *** First loop: a map over the bytes *)

Lemma fold_range_ascii (f : gostring -> gostring -> gostring) l s :
  Forall (fun c => byteZ c < 128) l ->
  fold_left (fun claim r => f claim (EncodeRune r)) (range l) s
  = fold_left (fun claim c => f claim [c]) l s.
Proof.
  intros Hl. rewrite range_ascii by done. revert s.
  induction Hl as [|c l Hc _ IH]; intros s; [done|].
  cbn [map fold_left]. by rewrite encode_byte, IH.
Qed.

Lemma fold_ReplaceAll l s :
  hyphen ∉ l ->
  fold_left (fun claim c => ReplaceAll claim [c] [hyphen]) l s
  = map (fun b => if bool_decide (b ∈ l) then hyphen else b) s.
Proof.
  revert s. induction l as [|c l IH]; intros s Hh.
  - cbn. by rewrite map_id.
  - apply not_elem_of_cons in Hh as [Hne Hh].
    cbn [fold_left]. rewrite ReplaceAll_byte, IH, map_map by done.
    apply map_ext. intros b. unfold subst_byte.
    destruct (decide (b = c)) as [->|Hbc].
    + rewrite (bool_decide_eq_true_2 (c = c)) by done.
      rewrite (bool_decide_eq_true_2 (c ∈ c :: l)) by (by left).
      by case_bool_decide.
    + rewrite (bool_decide_eq_false_2 (b = c)) by done.
      apply (f_equal (fun x : bool => if x then hyphen else b)).
      apply bool_decide_ext. rewrite elem_of_cons.
      split; [by right|intros [?|?]; done].
Qed.

Lemma replaceDisallowed_map claim : replaceDisallowed claim = map dashDisallowed claim.
Proof.
  unfold replaceDisallowed.
  rewrite (fold_range_ascii (fun claim old => ReplaceAll claim old (str "-")))
    by apply disallowed_ascii.
  apply fold_ReplaceAll, hyphen_allowed.
Qed.

Lemma dashDisallowed_allowed b : dashDisallowed b ∉ disallowed.
Proof. unfold dashDisallowed. case_bool_decide; [apply hyphen_allowed|done]. Qed.

Lemma dashDisallowed_high b : 128 <= byteZ b -> dashDisallowed b = b.
Proof.
  intros H. unfold dashDisallowed. case_bool_decide as Hb; [|done].
  pose proof disallowed_ascii as Ha. rewrite Forall_forall in Ha.
  apply Ha in Hb. lia.
Qed.

Lemma dashDisallowed_low b : byteZ b < 128 -> byteZ (dashDisallowed b) < 128.
Proof. intros H. unfold dashDisallowed. case_bool_decide; [by vm_compute|done]. Qed.

(** *** A map over the bytes that respects ASCII, on well-formed UTF-8 *)

Lemma scalar_low r : 0 <= r < 128 -> scalar r.
Proof. unfold scalar, MaxRune, surrogateMin, surrogateMax. lia. Qed.

Lemma map_encodeAll f rs :
  (forall b, 128 <= byteZ b -> f b = b) ->
  (forall b, byteZ b < 128 -> byteZ (f b) < 128) ->
  Forall scalar rs ->
  map f (encodeAll rs) = encodeAll (map (lift f) rs) /\ Forall scalar (map (lift f) rs).
Proof.
  intros Hhigh Hlow. induction 1 as [|r rs Hr _ [IH1 IH2]]; [done|].
  unfold encodeAll in *. cbn [map concat]. rewrite map_app, IH1.
  destruct (Z.ltb_spec r 128) as [Hlt|Hge].
  - assert (Hl : lift f r = byteZ (f (byte_of r))).
    { unfold lift. by rewrite (proj2 (Z.ltb_lt _ _)). }
    assert (0 <= r) by (destruct Hr; lia).
    assert (Hb : byteZ (f (byte_of r)) < 128)
      by (apply Hlow; rewrite byteZ_byte_of; lia).
    rewrite Hl. split; [|constructor; [apply scalar_byte|]; done].
    f_equal. rewrite encode1, encode_byte by (done || lia). done.
  - assert (Hl : lift f r = r).
    { unfold lift. by rewrite (proj2 (Z.ltb_ge _ _)). }
    rewrite Hl. split; [|by constructor]. f_equal.
    pose proof (encode_high r Hr Hge) as Hh.
    induction Hh as [|b e Hb _ IHe]; [done|]. cbn. by rewrite Hhigh, IHe.
Qed.

(** *** Second loop, on well-formed UTF-8 *)

Lemma encode_hyphen : EncodeRune 45 = [hyphen].
Proof. reflexivity. Qed.

(** The first byte of the encoding of a rune outside [33, 126] is not a
    printable byte. *)
Lemma encode_head_unprintable r :
  scalar r -> (r < 33 \/ 126 < r) ->
  exists c old, EncodeRune r = c :: old /\ ~ printable c.
Proof.
  intros Hr Hout. unfold printable.
  destruct (Z.ltb_spec r 128) as [Hlt|Hge].
  - assert (0 <= r) by (destruct Hr; lia).
    exists (byte_of r), []. rewrite encode1, byteZ_byte_of by lia. split; [done|lia].
  - pose proof (encode_high r Hr Hge) as Hh.
    destruct (EncodeRune r) as [|c old] eqn:E.
    { pose proof (encode_length r) as Hl. rewrite E in Hl. cbn in Hl. lia. }
    exists c, old. split; [done|]. apply Forall_cons in Hh as [Hc _]. lia.
Qed.

(** The loop invariant: the part [P] already passed holds printable bytes
    only, the runes [rs] still to come are untouched. *)
Lemma replaceNonPrintable_loop rs P :
  Forall scalar rs -> Forall printable P ->
  fold_left (fun claim r =>
               if (r <? 33) || (126 <? r)
               then Replace claim (EncodeRune r) (str "-") 1 else claim)
            rs (P ++ encodeAll rs)
  = P ++ encodeAll (map dashNonPrintable rs).
Proof.
  intros Hrs. revert P. induction Hrs as [|r rs Hr _ IH]; intros P HP; [done|].
  unfold encodeAll in *. cbn [map concat fold_left]. unfold dashNonPrintable at 1.
  destruct ((r <? 33) || (126 <? r)) eqn:Hout.
  - apply orb_true_iff in Hout. rewrite Z.ltb_lt, Z.ltb_lt in Hout.
    destruct (encode_head_unprintable r Hr Hout) as (c & old & E & Hc).
    rewrite E, encode_hyphen.
    rewrite Replace_first.
    + change (str "-") with [hyphen].
      rewrite (app_assoc P [hyphen]), IH, <- app_assoc; [done|].
      apply Forall_app. split; [done|]. apply Forall_singleton. by vm_compute.
    + intros Hin. rewrite Forall_forall in HP. by apply Hc, HP.
    + intros [= -> _]. apply Hc. by vm_compute.
  - apply orb_false_iff in Hout. rewrite Z.ltb_ge, Z.ltb_ge in Hout.
    rewrite encode1 by lia.
    rewrite (app_assoc P [byte_of r]), IH, <- app_assoc; [done|].
    apply Forall_app. split; [done|]. apply Forall_singleton.
    unfold printable. rewrite byteZ_byte_of; lia.
Qed.

Lemma replaceNonPrintable_encodeAll rs :
  Forall scalar rs ->
  replaceNonPrintable (encodeAll rs) = encodeAll (map dashNonPrintable rs).
Proof.
  intros Hrs. unfold replaceNonPrintable. rewrite range_encodeAll by done.
  by apply (replaceNonPrintable_loop rs []).
Qed.

(** *** Stripping an ASCII prefix keeps UTF-8 well formed *)

Lemma wellformed_tail c t : byteZ c < 128 -> wellformed (c :: t) -> wellformed t.
Proof.
  intros Hc (rs & Hrs & E). destruct Hrs as [|r rs Hr Hrs]; [done|].
  unfold encodeAll in E. cbn [map concat] in E.
  destruct (Z.ltb_spec r 128) as [Hlt|Hge].
  - assert (0 <= r) by (destruct Hr; lia). rewrite encode1 in E by lia.
    injection E as _ ->. by exists rs.
  - pose proof (encode_high r Hr Hge) as Hh.
    destruct (EncodeRune r) as [|c' old] eqn:E'.
    { pose proof (encode_length r) as Hl. rewrite E' in Hl. cbn in Hl. lia. }
    injection E as -> _. apply Forall_cons in Hh as [Hc' _]. lia.
Qed.

Lemma wellformed_drop_ascii p t :
  Forall (fun c => byteZ c < 128) p -> wellformed (p ++ t) -> wellformed t.
Proof.
  induction 1 as [|c p Hc _ IH]; [done|]. intros H. by apply IH, (wellformed_tail c).
Qed.

Lemma wellformed_TrimPrefix s p :
  Forall (fun c => byteZ c < 128) p -> wellformed s -> wellformed (TrimPrefix s p).
Proof.
  intros Hp Hs. destruct (TrimPrefix_cases s p) as [E| ->]; [|done].
  rewrite E in Hs. by apply (wellformed_drop_ascii p).
Qed.

(** *** The bytes of a sanitized claim *)

Lemma sanitize_wellformed claim :
  wellformed claim ->
  exists rs, Forall scalar rs
    /\ sanitize claim = encodeAll (map dashNonPrintable (map (lift dashDisallowed) rs)).
Proof.
  intros Hw. unfold sanitize.
  apply (wellformed_TrimPrefix _ (str "http://")) in Hw; [|repeat constructor].
  apply (wellformed_TrimPrefix _ (str "https://")) in Hw; [|repeat constructor].
  destruct Hw as (rs & Hrs & ->). exists rs. split; [done|].
  rewrite replaceDisallowed_map.
  destruct (map_encodeAll dashDisallowed rs dashDisallowed_high dashDisallowed_low Hrs)
    as [-> Hrs'].
  by apply replaceNonPrintable_encodeAll.
Qed.

Lemma sanitize_clean claim :
  wellformed claim -> forallb cleanByte (sanitize claim) = true.
Proof.
  intros Hw. destruct (sanitize_wellformed claim Hw) as (rs & Hrs & ->).
  clear Hw. induction Hrs as [|r rs Hr _ IH]; [done|].
  unfold encodeAll in *. cbn [map concat]. rewrite forallb_app, IH, andb_true_r.
  unfold dashNonPrintable.
  destruct ((lift dashDisallowed r <? 33) || (126 <? lift dashDisallowed r)) eqn:Hout;
    [done|].
  apply orb_false_iff in Hout. rewrite Z.ltb_ge, Z.ltb_ge in Hout.
  rewrite encode1 by lia. cbn [forallb]. rewrite andb_true_r.
  unfold lift in *. destruct (Z.ltb_spec r 128) as [Hlt|Hge]; [|lia].
  rewrite byte_of_byteZ. unfold cleanByte.
  rewrite (proj2 (Z.leb_le _ _)), (proj2 (Z.leb_le _ _)) by lia.
  rewrite bool_decide_eq_false_2; [done|apply dashDisallowed_allowed].
Qed.

Lemma cleanByte_headerChar c : cleanByte c = true -> headerChar c = true.
Proof. destruct c as [[] [] [] [] [] [] [] []]; vm_compute; congruence. Qed.

Lemma canonical_headerChar upper s :
  forallb headerChar s = true -> forallb headerChar (http.canonical upper s) = true.
Proof.
  revert upper. induction s as [|c s IH]; intros upper H; [done|].
  cbn [forallb] in H. apply andb_true_iff in H as [Hc Hs].
  cbn [http.canonical forallb]. rewrite IH, andb_true_r by done.
  revert Hc. clear.
  destruct upper, c as [[] [] [] [] [] [] [] []]; vm_compute; congruence.
Qed.

Lemma CanonicalHeaderKey_headerChar s :
  forallb headerChar s = true -> forallb headerChar (http.CanonicalHeaderKey s) = true.
Proof.
  intros H. unfold http.CanonicalHeaderKey. case_match; [|done].
  by apply canonical_headerChar.
Qed.

(** *** A clean string passes both loops unchanged *)

Lemma cleanByte_spec c :
  cleanByte c = true <-> 33 <= byteZ c <= 126 /\ c ∉ disallowed.
Proof.
  unfold cleanByte. rewrite !andb_true_iff, negb_true_iff, !Z.leb_le.
  rewrite bool_decide_eq_false. tauto.
Qed.

Lemma forallb_Forall {A} (f : A -> bool) l :
  forallb f l = true <-> Forall (fun x => f x = true) l.
Proof.
  induction l as [|x l IH]; cbn; [by split|].
  rewrite andb_true_iff, Forall_cons, IH. done.
Qed.

Lemma clean_passes s :
  forallb cleanByte s = true -> replaceNonPrintable (replaceDisallowed s) = s.
Proof.
  intros Hs. rewrite forallb_Forall in Hs.
  assert (Hd : replaceDisallowed s = s).
  { rewrite replaceDisallowed_map. rewrite <- (map_id s) at 2.
    apply map_ext_Forall. eapply Forall_impl; [exact Hs|]. intros c Hc. cbn in Hc.
    apply cleanByte_spec in Hc as [_ Hc].
    unfold dashDisallowed. by rewrite bool_decide_eq_false_2. }
  rewrite Hd. clear Hd. unfold replaceNonPrintable.
  rewrite range_ascii.
  2:{ eapply Forall_impl; [exact Hs|]. intros c Hc. cbn in Hc.
      apply cleanByte_spec in Hc. lia. }
  generalize s at 2 3. intros t.
  induction Hs as [|c s Hc _ IH]; [done|]. cbn [map fold_left].
  apply cleanByte_spec in Hc as [Hc _].
  rewrite (proj2 (Z.ltb_ge _ _)), (proj2 (Z.ltb_ge _ _)) by lia. apply IH.
Qed.

End claim_facts.

(** ** The header names claimToHeader produces *)

Import claim_facts.

Lemma afterPrefix_claimToHeader Cfg claim :
  afterPrefix Cfg (claimToHeader Cfg claim).1 = http.CanonicalHeaderKey (sanitize claim).
Proof. unfold afterPrefix, claimToHeader. cbn [fst]. by rewrite drop_app_length. Qed.

(** C1, as the claim states it, fails: an exclamation mark is printable and
    is not in the disallowed set, so it passes both loops. *)
Lemma claimToHeader_letters_digits_hyphens_fails :
  ~ (forall Cfg claim,
       forallb letterDigitHyphen (afterPrefix Cfg (claimToHeader Cfg claim).1) = true).
Proof.
  intros H.
  specialize (H (withClaims (str "X-Vouch-IdP-Claims-") []) (str "a!b")).
  vm_compute in H. discriminate H.
Qed.

(** C1 (amended): for every claim that is well-formed UTF-8, the header
    name holds, after the configured prefix, only English letters, digits,
    hyphens and the characters [!#$%&'*+^`|~]. *)
Theorem claimToHeader_charset Cfg claim :
  utf8.wellformed claim ->
  forallb headerChar (afterPrefix Cfg (claimToHeader Cfg claim).1) = true.
Proof.
  intros Hw. rewrite afterPrefix_claimToHeader.
  apply CanonicalHeaderKey_headerChar.
  pose proof (sanitize_clean claim Hw) as Hc. rewrite forallb_Forall in Hc.
  apply forallb_Forall. eapply Forall_impl; [exact Hc|].
  intros c. apply cleanByte_headerChar.
Qed.

Lemma claimToHeader_charset_witness :
  forallb headerChar
    (afterPrefix (withClaims (str "X-Vouch-IdP-Claims-") [])
       (claimToHeader (withClaims (str "X-Vouch-IdP-Claims-") [])
          (str "https://r" ++ utf8.EncodeRune 233 ++ str "le.s!")).1) = true.
Proof.
  apply claimToHeader_charset.
  exists [104; 116; 116; 112; 115; 58; 47; 47; 114; 233; 108; 101; 46; 115; 33].
  split; [|reflexivity].
  repeat constructor; unfold utf8.surrogateMin, utf8.surrogateMax, utf8.MaxRune; lia.
Defined.

(** On well-formed UTF-8 the second loop is the single pass. *)
Lemma replaceNonPrintable_single_pass claim :
  utf8.wellformed claim -> replaceNonPrintable claim = replaceEveryNonPrintable claim.
Proof.
  intros (rs & Hrs & ->). rewrite replaceNonPrintable_encodeAll by done.
  unfold replaceEveryNonPrintable. rewrite utf8_facts.range_encodeAll by done.
  unfold utf8.encodeAll. rewrite map_map. f_equal. apply map_ext. intros r.
  unfold dashNonPrintable. by case_match.
Qed.

(** C10: on a string that holds the byte 0xFF alone the loop of
    [claimToHeader] changes nothing, whereas the single pass puts a hyphen:
    the range loop yields U+FFFD for the byte, and it is the three-byte
    encoding of U+FFFD that [strings.Replace] then looks for. *)
Theorem replaceNonPrintable_keeps_illformed_byte :
  utf8.range [byte_of 255] = [utf8.RuneError]
  /\ replaceNonPrintable [byte_of 255] = [byte_of 255]
  /\ replaceEveryNonPrintable [byte_of 255] = str "-"
  /\ claimToHeader (withClaims (str "X-") []) [byte_of 255]
     = (str "X-" ++ [byte_of 255], nil_error).
Proof. repeat split; by vm_compute. Qed.

(** C7: a string whose bytes are all in [33, 126] and outside the
    disallowed set passes the two replacement loops unchanged; the whole
    function is not idempotent, since it prepends the prefix again. *)
Theorem replacement_steps_idempotent :
  (forall s, forallb cleanByte s = true ->
             replaceNonPrintable (replaceDisallowed s) = s)
  /\ (exists Cfg claim,
        (claimToHeader Cfg (claimToHeader Cfg claim).1).1 <> (claimToHeader Cfg claim).1).
Proof.
  split; [exact clean_passes|].
  exists (withClaims (str "X-Vouch-IdP-Claims-") []), (str "roles").
  vm_compute. discriminate.
Qed.

Lemma replacement_steps_idempotent_witness :
  replaceNonPrintable (replaceDisallowed (str "Example-Com-Roles!1"))
  = str "Example-Com-Roles!1".
Proof. apply (proj1 replacement_steps_idempotent). reflexivity. Defined.

(** The loops are idempotent on every well-formed claim. *)
Lemma replacement_steps_idempotent_wellformed claim :
  utf8.wellformed claim ->
  replaceNonPrintable (replaceDisallowed (sanitize claim)) = sanitize claim.
Proof. intros Hw. by apply clean_passes, sanitize_clean. Qed.

(** The loop of [cleanClaimsHeaders] never leaves by its error branch. *)
Lemma cleanLoop_inl Cfg claims m : exists m', cleanLoop Cfg claims m = inl m'.
Proof.
  revert m. induction claims as [|claim claims IH]; intros m; [by exists m|].
  cbn [cleanLoop]. unfold claimToHeader at 1. apply IH.
Qed.

(** C8: [claimToHeader] returns a nil error for every claim, and
    [cleanClaimsHeaders] returns nil for every list of claims. *)
Theorem sanitization_never_errors :
  (forall Cfg claim, (claimToHeader Cfg claim).2 = nil_error)
  /\ (forall Cfg, (cleanClaimsHeaders Cfg).2 = nil_error).
Proof.
  split; [done|]. intros Cfg. unfold cleanClaimsHeaders.
  destruct (cleanLoop_inl Cfg (Headers.Claims (Headers Cfg)) ∅) as [m ->]. done.
Qed.

(** C9: the header is the configured prefix, verbatim, followed by the
    canonical form of the sanitized claim; what follows the prefix does not
    depend on the prefix. *)
Theorem claimToHeader_prefix_verbatim Cfg claim :
  let header := (claimToHeader Cfg claim).1 in
  header = Headers.ClaimHeader (Headers Cfg) ++ http.CanonicalHeaderKey (sanitize claim)
  /\ take (length (Headers.ClaimHeader (Headers Cfg))) header
     = Headers.ClaimHeader (Headers Cfg)
  /\ forall Cfg', afterPrefix Cfg' (claimToHeader Cfg' claim).1 = afterPrefix Cfg header.
Proof.
  cbn zeta. split; [done|]. split.
  - unfold claimToHeader. cbn [fst]. by rewrite take_app_length.
  - intros Cfg'. by rewrite !afterPrefix_claimToHeader.
Qed.

Example prefix_not_sanitized :
  claimToHeader (withClaims (str "x_vouch:idp claims.") []) (str "group_id")
  = (str "x_vouch:idp claims.Group-Id", nil_error).
Proof. by vm_compute. Qed.

(** ** The map cleanClaimsHeaders builds *)

Lemma cleanLoop_cons (Cfg : Config) (a : gostring) (claims : list gostring) (m : gmap gostring gostring) :
  cleanLoop Cfg (a :: claims) m = cleanLoop Cfg claims (<[a := (claimToHeader Cfg a).1]> m).
Proof. reflexivity. Qed.

Lemma cleanLoop_lookup (Cfg : Config) (claims : list gostring) (m : gmap gostring gostring) :
  exists m', cleanLoop Cfg claims m = inl m'
    /\ forall c, m' !! c = if bool_decide (c ∈ claims)
                           then Some (claimToHeader Cfg c).1 else m !! c.
Proof.
  revert m. induction claims as [|a claims IH]; intros m.
  { exists m. split; [done|]. intros c. rewrite bool_decide_eq_false_2; [done|].
    apply not_elem_of_nil. }
  rewrite cleanLoop_cons.
  destruct (IH (<[a := (claimToHeader Cfg a).1]> m)) as (m' & -> & Hm').
  exists m'. split; [done|]. intros c. rewrite Hm'.
  destruct (decide (c ∈ claims)) as [Hin|Hout].
  - rewrite !bool_decide_eq_true_2; [done| by right | done].
  - rewrite (bool_decide_eq_false_2 (c ∈ claims)) by done.
    destruct (decide (a = c)) as [->|Hne].
    + rewrite lookup_insert_eq, bool_decide_eq_true_2; [done|by left].
    + rewrite lookup_insert_ne by done. rewrite bool_decide_eq_false_2; [done|].
      rewrite elem_of_cons. intros [?|?]; done.
Qed.

Lemma cleanClaimsHeaders_lookup Cfg c :
  Headers.ClaimsCleaned (Headers (cleanClaimsHeaders Cfg).1) !! c
  = if bool_decide (c ∈ Headers.Claims (Headers Cfg))
    then Some (claimToHeader Cfg c).1 else None.
Proof.
  unfold cleanClaimsHeaders.
  destruct (cleanLoop_lookup Cfg (Headers.Claims (Headers Cfg)) ∅) as (m & -> & Hm).
  cbn. rewrite Hm. by rewrite lookup_empty.
Qed.

(** It fails: the map is keyed by the raw claim, so both entries stay. *)
Lemma laterClaimWins_fails : ~ (forall Cfg, laterClaimWins Cfg).
Proof.
  intros H.
  pose (Cfg := withClaims (str "X-") [str "a_b"; str "a.b"]).
  assert (Hh : (claimToHeader Cfg (str "a_b")).1 = (claimToHeader Cfg (str "a.b")).1)
    by (by vm_compute).
  assert (Hne : str "a_b" <> str "a.b") by (intros E; vm_compute in E; discriminate E).
  pose proof (H Cfg 0%nat 1%nat (str "a_b") (str "a.b") ltac:(lia) eq_refl eq_refl Hne Hh)
    as Hnone.
  rewrite cleanClaimsHeaders_lookup in Hnone. vm_compute in Hnone. discriminate Hnone.
Qed.

(** C3 (amended): the map has exactly one entry for each distinct raw claim
    of the list, under the raw claim as key, and the entry holds the header
    [claimToHeader] computes for that claim; entries of different raw claims
    with the same header name are all kept; no error is reported. *)
Theorem cleanClaimsHeaders_entries Cfg :
  let '(Cfg', err) := cleanClaimsHeaders Cfg in
  let m := Headers.ClaimsCleaned (Headers Cfg') in
  err = nil_error
  /\ (forall c, m !! c = if bool_decide (c ∈ Headers.Claims (Headers Cfg))
                         then Some (claimToHeader Cfg c).1 else None)
  /\ dom m = list_to_set (Headers.Claims (Headers Cfg))
  /\ size m = length (remove_dups (Headers.Claims (Headers Cfg))).
Proof.
  pose proof (cleanClaimsHeaders_lookup Cfg) as Hl.
  pose proof (cleanLoop_inl Cfg (Headers.Claims (Headers Cfg)) ∅) as [m0 Hm0].
  unfold cleanClaimsHeaders in *. rewrite Hm0 in *.
  cbn [fst snd Headers Headers.ClaimsCleaned] in *.
  assert (Hd : dom m0 = list_to_set (Headers.Claims (Headers Cfg))).
  { apply set_eq. intros c. rewrite elem_of_dom, Hl, elem_of_list_to_set.
    case_bool_decide; split; intros H'; try done; by destruct H'. }
  repeat split; [done|done|].
  rewrite <- size_dom, Hd.
  rewrite <- (size_list_to_set (C := gset gostring) (remove_dups _))
    by apply NoDup_remove_dups.
  f_equal. apply set_eq. intros c.
  by rewrite !elem_of_list_to_set, elem_of_remove_dups.
Qed.

Example claims_same_header :
  let Cfg := withClaims (str "X-") [str "https://example.com/roles"; str "example.com/roles"] in
  let m := Headers.ClaimsCleaned (Headers (cleanClaimsHeaders Cfg).1) in
  m !! str "https://example.com/roles" = Some (str "X-Example-Com-Roles")
  /\ m !! str "example.com/roles" = Some (str "X-Example-Com-Roles").
Proof. cbn zeta. rewrite !cleanClaimsHeaders_lookup. split; by vm_compute. Qed.

(** ** The resolution pipeline *)

Section ResolutionFacts.
Context {W : World}.

Lemma Cfg_SetConfigFile f (st : State) : Cfg (SetConfigFile f st) = Cfg st.
Proof. by destruct f. Qed.

Lemma Cfg_SetConfigName f (st : State) : Cfg (SetConfigName f st) = Cfg st.
Proof. by destruct f. Qed.

Lemma Cfg_SetConfigType f (st : State) : Cfg (SetConfigType f st) = Cfg st.
Proof. by destruct f. Qed.

Lemma Cfg_AddConfigPath f (st : State) : Cfg (AddConfigPath f st) = Cfg st.
Proof. destruct f; [done|]. unfold AddConfigPath. by case_bool_decide. Qed.

Lemma Cfg_logf lvl fmt a (st : State) : Cfg (logf lvl fmt a st) = Cfg st.
Proof. reflexivity. Qed.

Lemma Cfg_setDoc d (st : State) : Cfg (setDoc d st) = Cfg st.
Proof. reflexivity. Qed.

Lemma configName_AddConfigPath f (st : State) :
  configName (viper (AddConfigPath f st)) = configName (viper st).
Proof. destruct f; [done|]. unfold AddConfigPath. by case_bool_decide. Qed.

Lemma viper_config_AddConfigPath f (st : State) :
  viper_config (AddConfigPath f st) = viper_config st.
Proof. destruct f; [done|]. unfold AddConfigPath. by case_bool_decide. Qed.

Lemma configName_SetConfigType f (st : State) :
  configName (viper (SetConfigType f st)) = configName (viper st).
Proof. by destruct f. Qed.

(** Choosing the file does not touch the configuration. *)
Lemma Cfg_locateConfig (st : State) : Cfg (locateConfig st) = Cfg st.
Proof.
  unfold locateConfig.
  destruct (Getenv _); [destruct (cmd_configFile _)|];
    by rewrite ?Cfg_SetConfigFile, ?Cfg_AddConfigPath, ?Cfg_SetConfigType,
               ?Cfg_SetConfigName, ?Cfg_logf.
Qed.

Lemma basicTest_error (st : State) : (basicTest st).1 = basicTestError st.
Proof.
  unfold basicTest, basicTestError.
  destruct oauthBasicTest; [done|].
  destruct (find _ RequiredOptions); [done|].
  destruct (negb _ && negb _); [done|]. cbv zeta.
  destruct (Cookie.MaxAge (Cookie (Cfg st)) <? 0); [done|].
  destruct (JWT.MaxAge (JWT (Cfg st)) <=? 0); [done|].
  by destruct (JWT.MaxAge (JWT (Cfg st)) <? Cookie.MaxAge (Cookie (Cfg st))).
Qed.

Lemma required_set (st : State) :
  Forall (fun opt => IsSet opt st = true) RequiredOptions ->
  find (fun opt => negb (IsSet opt st)) RequiredOptions = None.
Proof.
  intros Hreq. destruct (find _ RequiredOptions) as [opt|] eqn:Ef; [|done].
  apply find_some in Ef as [Hin Hunset]. rewrite Forall_forall in Hreq.
  apply list_elem_of_In, Hreq in Hin. by rewrite Hin in Hunset.
Qed.

Lemma log_logError err (st : State) e : e ∈ log st -> e ∈ log (logError err st).
Proof. destruct err; cbn; [|done]. intros H. apply elem_of_app. by left. Qed.

(** The configuration after [setDefaults]: the key [vouch] of the file
    just read, or of the content viper held when no file could be read,
    decoded over the configuration at hand. *)
Lemma Cfg_setDefaults (st : State) :
  let st1 := AddConfigPath (filepath_Join (RootDir st) (str "config"))
               (SetConfigType (str "yaml") (SetConfigName (str ".defaults") st)) in
  Cfg (setDefaults st)
  = match viper_readFile (viper st1) with
    | inl d => (viper_decode d Branding.LCName (Cfg st)).1
    | inr _ => (UnmarshalKey Branding.LCName (Cfg st) st).1
    end.
Proof.
  cbv zeta. unfold setDefaults, ReadInConfig, UnmarshalKey.
  assert (Hr : RootDir (SetConfigType (str "yaml") (SetConfigName (str ".defaults") st))
               = RootDir st) by reflexivity.
  rewrite Hr.
  set (st1 := AddConfigPath _ _).
  assert (Hc : Cfg st1 = Cfg st)
    by (subst st1; by rewrite Cfg_AddConfigPath, Cfg_SetConfigType, Cfg_SetConfigName).
  assert (Hd : viper_config st1 = viper_config st)
    by (subst st1; by rewrite viper_config_AddConfigPath).
  destruct (viper_readFile (viper st1)) as [d|e].
  - cbn [viper_config setDoc Cfg]. rewrite Hc.
    destruct (viper_decode d Branding.LCName (Cfg st)) as [cfg err].
    destruct err; cbn; by destruct (IsHealthCheck _).
  - rewrite Hc, Hd. destruct (viper_config st) as [d|].
    + destruct (viper_decode d Branding.LCName (Cfg st)) as [cfg err].
      destruct err; cbn; by destruct (IsHealthCheck _).
    + cbn. by destruct (IsHealthCheck _).
Qed.

(** C4: when the key [vouch] decodes to an empty domain list and the key
    [lasso] to a non-empty one, [parseConfig] returns with the
    configuration decoded from [lasso] into a fresh [Config] as the whole
    configuration, and has logged the message that names both keys. *)
Theorem parseConfig_adopts_legacy (st : State) (doc : Doc) :
  viper_readFile (viper (locateConfig st)) = inl doc ->
  Domains (viper_decode doc Branding.LCName (Cfg st)).1 = [] ->
  Domains (viper_decode doc Branding.OldLCName zeroConfig).1 <> [] ->
  exists st',
    parseConfig st = Returns st'
    /\ Cfg st' = (viper_decode doc Branding.OldLCName zeroConfig).1
    /\ migrationWarning ∈ log st'.
Proof.
  intros Hread Hprimary Hlegacy.
  unfold parseConfig, ReadInConfig. rewrite Hread.
  eexists. split; [reflexivity|].
  unfold decodeConfig, UnmarshalKey, checkConfigFileWellFormed.
  cbn [viper_config setDoc logf].
  set (st0 := match viper_decodeStrict doc with Some _ => _ | None => _ end).
  assert (Hc : Cfg st0 = Cfg st)
    by (subst st0; destruct (viper_decodeStrict doc); cbn; apply Cfg_locateConfig).
  assert (Hd : viper_config st0 = Some doc)
    by (subst st0; destruct (viper_decodeStrict doc); reflexivity).
  rewrite Hd, Hc.
  destruct (viper_decode doc Branding.LCName (Cfg st)) as [cfg err] eqn:E1.
  cbn [fst] in Hprimary.
  assert (Hcfg : Cfg (logError err (setCfg cfg st0)) = cfg) by (by destruct err).
  assert (Hdoc : viper_config (logError err (setCfg cfg st0)) = Some doc)
    by (by destruct err).
  rewrite Hcfg, Hprimary, Hdoc. cbn [length Nat.eqb].
  destruct (viper_decode doc Branding.OldLCName zeroConfig) as [old err'] eqn:E2.
  cbn [fst] in *.
  destruct (Domains old) as [|d ds] eqn:E3; [done|]. cbn [length Nat.eqb negb].
  split; [reflexivity|]. cbn [log setCfg logf].
  apply elem_of_app. right. by apply list_elem_of_singleton.
Qed.

(** C5: without [vouch.allowAllUsers] and without [vouch.domains],
    [basicTest] returns an error, and it is the error of this rule when
    the checks before it pass; with either of them, or both, it does not
    return the error of this rule. *)
Theorem basicTest_domains_or_allowAllUsers (st : State) :
  (IsSet (Branding.LCName ++ str ".allowAllUsers") st = false ->
   IsSet (Branding.LCName ++ str ".domains") st = false ->
   (basicTest st).1 <> nil_error
   /\ (oauthBasicTest = None ->
       Forall (fun opt => IsSet opt st = true) RequiredOptions ->
       (basicTest st).1 = Some ErrDomainsOrAllowAllUsers))
  /\ (IsSet (Branding.LCName ++ str ".allowAllUsers") st = true
      \/ IsSet (Branding.LCName ++ str ".domains") st = true ->
      (basicTest st).1 <> Some ErrDomainsOrAllowAllUsers).
Proof.
  rewrite basicTest_error. unfold basicTestError. split.
  - intros Ha Hd. rewrite Ha, Hd. cbn [negb andb]. split.
    + destruct oauthBasicTest; [done|]. by destruct (find _ RequiredOptions).
    + intros -> Hreq. by rewrite required_set.
  - intros Hset.
    assert (Hc : negb (IsSet (Branding.LCName ++ str ".allowAllUsers") st)
                 && negb (IsSet (Branding.LCName ++ str ".domains") st) = false)
      by (destruct Hset as [-> | ->]; [done|apply andb_false_r]).
    rewrite Hc. destruct oauthBasicTest; [done|].
    destruct (find _ RequiredOptions); [done|]. repeat case_match; done.
Qed.

(** C6: with positive max-ages and the cookie's larger than the JWT's,
    [basicTest] returns an error, the error of this rule when the checks
    before it pass, and [ValidateConfiguration] panics. *)
Theorem basicTest_cookie_maxAge_larger (st : State) :
  0 < JWT.MaxAge (JWT (Cfg st)) ->
  0 < Cookie.MaxAge (Cookie (Cfg st)) ->
  JWT.MaxAge (JWT (Cfg st)) < Cookie.MaxAge (Cookie (Cfg st)) ->
  (basicTest st).1 <> nil_error
  /\ (oauthBasicTest = None ->
      Forall (fun opt => IsSet opt st = true) RequiredOptions ->
      IsSet (Branding.LCName ++ str ".allowAllUsers") st
        || IsSet (Branding.LCName ++ str ".domains") st = true ->
      (basicTest st).1
      = Some (ErrCookieMaxAgeLarger (Cookie.MaxAge (Cookie (Cfg st)))
                                    (JWT.MaxAge (JWT (Cfg st)))))
  /\ exists st', ValidateConfiguration st = Panics st'.
Proof.
  intros Hj Hc Hlt.
  assert (Hne : (basicTest st).1 <> nil_error).
  { rewrite basicTest_error. unfold basicTestError.
    destruct oauthBasicTest; [done|]. destruct (find _ RequiredOptions); [done|].
    destruct (negb _ && negb _); [done|].
    rewrite (proj2 (Z.ltb_ge _ _)), (proj2 (Z.leb_gt _ _)), (proj2 (Z.ltb_lt _ _)) by lia.
    done. }
  split; [done|]. split.
  - intros Ho Hreq Hset. rewrite basicTest_error. unfold basicTestError.
    rewrite Ho, required_set by done.
    apply orb_true_iff in Hset.
    assert (Hd : negb (IsSet (Branding.LCName ++ str ".allowAllUsers") st)
                 && negb (IsSet (Branding.LCName ++ str ".domains") st) = false)
      by (destruct Hset as [-> | ->]; [done|apply andb_false_r]).
    rewrite Hd.
    rewrite (proj2 (Z.ltb_ge _ _)), (proj2 (Z.leb_gt _ _)), (proj2 (Z.ltb_lt _ _)) by lia.
    reflexivity.
  - unfold ValidateConfiguration. destruct (basicTest st) as [[e|] st'] eqn:E.
    + by eexists.
    + by cbn in Hne.
Qed.

End ResolutionFacts.

(** ** The pipeline on well-typed documents *)

Import Examples.

(** In the world of well-typed documents [setDefaults] decodes the section
    [vouch] of the defaults file over the configuration at hand. *)
Lemma setDefaults_typed primary defaults (st : @State (worldOf primary defaults)) :
  Cfg (setDefaults st)
  = match Typed.section (str "vouch") (Typed.sections defaults) with
    | Some d => Typed.decodeInto d (Cfg st)
    | None => Cfg st
    end.
Proof.
  rewrite Cfg_setDefaults. cbv zeta.
  unfold worldOf, Typed.world. cbn [viper_readFile viper_decode].
  unfold files. rewrite bool_decide_eq_true_2.
  2:{ by rewrite configName_AddConfigPath, configName_SetConfigType. }
  unfold Typed.decode. change (Typed.ToLower Branding.LCName) with (str "vouch").
  by destruct (Typed.section _ _).
Qed.

(** A key the defaults file defines is written over the value the
    configuration file gave, a key it does not define is left alone: here
    for the name of the cookie. *)
Lemma setDefaults_typed_cookie_name primary defaults (st : @State (worldOf primary defaults)) d :
  Typed.section (str "vouch") (Typed.sections defaults) = Some d ->
  Cookie.Name (Cookie (Cfg (setDefaults st)))
  = match Typed.ConfigDoc.cookie d with
    | Some c => match Typed.CookieDoc.name c with
                | Some name => name
                | None => Cookie.Name (Cookie (Cfg st))
                end
    | None => Cookie.Name (Cookie (Cfg st))
    end.
Proof.
  intros Hd. rewrite setDefaults_typed, Hd. cbn.
  destruct (Typed.ConfigDoc.cookie d) as [c|]; [|done]. cbn.
  by destruct (Typed.CookieDoc.name c).
Qed.

(** C2: the configuration file sets only the name of the cookie, the
    defaults file sets the name and the max-age of the cookie.  After
    [parseConfig] the name is the one of the configuration file; after
    [setDefaults] it is the one of the defaults file. *)
Theorem setDefaults_overwrites_primary :
  match parseConfig (W := worldOf primaryDoc defaultsDoc) (initialState noFlags) with
  | Returns st1 =>
      Cookie.Name (Cookie (Cfg st1)) = str "primary-cookie"
      /\ Cookie.Name (Cookie (Cfg (setDefaults st1))) = str "VouchCookie"
      /\ Cookie.MaxAge (Cookie (Cfg (setDefaults st1))) = 240
  | _ => False
  end.
Proof. vm_compute. repeat split. Qed.

Example Configure_overwrites_primary :
  match Configure (W := worldOf primaryDoc defaultsDoc) (initialState noFlags) with
  | Returns st => Cookie.Name (Cookie (Cfg st)) = str "VouchCookie"
  | _ => False
  end.
Proof. by vm_compute. Qed.

Lemma parseConfig_adopts_legacy_witness :
  exists st',
    parseConfig (W := worldOf legacyDoc defaultsDoc) (initialState noFlags) = Returns st'
    /\ Cfg st' = (Typed.decode legacyDoc Branding.OldLCName zeroConfig).1
    /\ migrationWarning ∈ log st'.
Proof.
  apply (parseConfig_adopts_legacy (W := worldOf legacyDoc defaultsDoc)
           (initialState noFlags) legacyDoc).
  - vm_compute. reflexivity.
  - vm_compute. reflexivity.
  - vm_compute. discriminate.
Defined.

Example legacy_replaces_primary :
  match parseConfig (W := worldOf legacyDoc defaultsDoc) (initialState noFlags) with
  | Returns st =>
      Domains (Cfg st) = [str "old.example.com"]
      /\ Cookie.Name (Cookie (Cfg st)) = str "Lasso"
      /\ Listen (Cfg st) = [] /\ Port (Cfg st) = 0
  | _ => False
  end.
Proof. vm_compute. repeat split. Qed.

Lemma basicTest_domains_or_allowAllUsers_witness :
  (basicTest (loaded primaryDoc)).1 = Some ErrDomainsOrAllowAllUsers
  /\ (basicTest (loaded maxAgeDoc)).1 <> Some ErrDomainsOrAllowAllUsers.
Proof.
  split.
  - apply (proj1 (basicTest_domains_or_allowAllUsers (loaded primaryDoc))).
    + vm_compute. reflexivity.
    + vm_compute. reflexivity.
    + reflexivity.
    + repeat constructor.
  - apply (proj2 (basicTest_domains_or_allowAllUsers (loaded maxAgeDoc))).
    right. vm_compute. reflexivity.
Defined.

Lemma basicTest_cookie_maxAge_larger_witness :
  (basicTest (loaded maxAgeDoc)).1 = Some (ErrCookieMaxAgeLarger 100 50).
Proof.
  apply (basicTest_cookie_maxAge_larger (loaded maxAgeDoc)).
  - vm_compute. reflexivity.
  - vm_compute. reflexivity.
  - vm_compute. reflexivity.
  - reflexivity.
  - repeat constructor.
  - vm_compute. reflexivity.
Defined.

(** * Further properties *)

(** ** claimToHeader on ASCII claims *)

Lemma sanitize_stripScheme claim :
  sanitize claim = replaceNonPrintable (replaceDisallowed (stripScheme claim)).
Proof. reflexivity. Qed.

Lemma encodeAll_ascii s :
  Forall (fun c => byteZ c < 128) s -> utf8.encodeAll (map byteZ s) = s.
Proof.
  induction 1 as [|c s Hc _ IH]; [done|].
  unfold utf8.encodeAll in *. cbn [map concat].
  by rewrite utf8_facts.encode_byte, IH.
Qed.

Lemma scalar_ascii s :
  Forall (fun c => byteZ c < 128) s -> Forall utf8.scalar (map byteZ s).
Proof.
  induction 1 as [|c s Hc _ IH]; constructor; [by apply utf8_facts.scalar_byte|done].
Qed.

Lemma wellformed_ascii s : Forall (fun c => byteZ c < 128) s -> utf8.wellformed s.
Proof.
  intros Hs. exists (map byteZ s). split; [by apply scalar_ascii|].
  by rewrite encodeAll_ascii.
Qed.

Lemma replaceNonPrintable_ascii s :
  Forall (fun c => byteZ c < 128) s ->
  replaceNonPrintable s
  = map (fun b => if (33 <=? byteZ b) && (byteZ b <=? 126) then b else hyphen) s.
Proof.
  intros Hs. rewrite <- (encodeAll_ascii s Hs) at 1.
  rewrite replaceNonPrintable_encodeAll by by apply scalar_ascii.
  induction Hs as [|c s Hc _ IH]; [done|].
  unfold utf8.encodeAll in *. cbn [map concat]. rewrite IH. clear IH.
  pose proof (byteZ_range c). unfold dashNonPrintable.
  destruct (Z.ltb_spec (byteZ c) 33), (Z.ltb_spec 126 (byteZ c)),
    (Z.leb_spec 33 (byteZ c)), (Z.leb_spec (byteZ c) 126); try lia; cbn [orb andb];
    try reflexivity.
  by rewrite utf8_facts.encode_byte.
Qed.

Lemma stripScheme_ascii claim :
  Forall (fun c => byteZ c < 128) claim -> Forall (fun c => byteZ c < 128) (stripScheme claim).
Proof.
  intros H. unfold stripScheme, strings.TrimPrefix.
  repeat case_match; try apply Forall_drop; try apply Forall_drop; done.
Qed.

(** X1: on a claim of ASCII bytes only, what follows the prefix is the
    canonical form of the claim with its scheme stripped and every byte that
    is in the disallowed set or outside [33, 126] turned into a hyphen,
    byte for byte. *)
Theorem claimToHeader_ascii Cfg claim :
  Forall (fun c => byteZ c < 128) claim ->
  (claimToHeader Cfg claim).1
  = Headers.ClaimHeader (Headers Cfg)
    ++ http.CanonicalHeaderKey (map dashByte (stripScheme claim)).
Proof.
  intros Ha. unfold claimToHeader. cbn [fst]. f_equal. f_equal.
  rewrite sanitize_stripScheme, replaceDisallowed_map.
  apply stripScheme_ascii in Ha. revert Ha. generalize (stripScheme claim). intros s Ha.
  rewrite replaceNonPrintable_ascii.
  2:{ apply Forall_fmap. eapply Forall_impl; [exact Ha|]. intros c Hc. cbn.
      by apply dashDisallowed_low. }
  rewrite map_map. apply map_ext. intros b. clear.
  destruct b as [[] [] [] [] [] [] [] []]; by vm_compute.
Qed.

Lemma claimToHeader_ascii_witness :
  (claimToHeader (withClaims (str "X-Vouch-IdP-Claims-") []) (str "https://example.com/my role_1")).1
  = str "X-Vouch-IdP-Claims-"
    ++ http.CanonicalHeaderKey
         (map dashByte (stripScheme (str "https://example.com/my role_1"))).
Proof. apply claimToHeader_ascii. repeat constructor. Defined.

(** ** One byte of header for each character of the claim *)

Lemma canonical_length upper s : length (http.canonical upper s) = length s.
Proof.
  revert upper. induction s as [|c s IH]; intros upper; [done|].
  cbn [http.canonical length]. by rewrite IH.
Qed.

Lemma CanonicalHeaderKey_length s : length (http.CanonicalHeaderKey s) = length s.
Proof. unfold http.CanonicalHeaderKey. case_match; [apply canonical_length|done]. Qed.

Lemma dashNonPrintable_range r : 33 <= dashNonPrintable r <= 126.
Proof.
  unfold dashNonPrintable.
  destruct (Z.ltb_spec r 33), (Z.ltb_spec 126 r); cbn [orb]; lia.
Qed.

Lemma encodeAll_printable_length rs :
  Forall (fun r => 33 <= r <= 126) rs -> length (utf8.encodeAll rs) = length rs.
Proof.
  induction 1 as [|r rs Hr _ IH]; [done|].
  unfold utf8.encodeAll in *. cbn [map concat]. rewrite length_app, IH.
  by rewrite utf8_facts.encode1 by lia.
Qed.

Lemma stripScheme_wellformed claim : utf8.wellformed claim -> utf8.wellformed (stripScheme claim).
Proof.
  intros Hw. unfold stripScheme.
  apply wellformed_TrimPrefix; [repeat constructor|].
  apply wellformed_TrimPrefix; [repeat constructor|done].
Qed.

(** X2: on a well-formed claim the header has, after the prefix, exactly
    one byte for each character of the claim without its scheme: no
    character is dropped and none gives more than one byte. *)
Theorem claimToHeader_length Cfg claim :
  utf8.wellformed claim ->
  length (afterPrefix Cfg (claimToHeader Cfg claim).1)
  = length (utf8.range (stripScheme claim)).
Proof.
  intros Hw. rewrite afterPrefix_claimToHeader, CanonicalHeaderKey_length.
  rewrite sanitize_stripScheme.
  destruct (stripScheme_wellformed claim Hw) as (rs & Hrs & ->).
  rewrite utf8_facts.range_encodeAll by done.
  rewrite replaceDisallowed_map.
  destruct (map_encodeAll dashDisallowed rs dashDisallowed_high dashDisallowed_low Hrs)
    as [-> Hrs'].
  rewrite replaceNonPrintable_encodeAll by done.
  rewrite encodeAll_printable_length, !length_map; [done|].
  apply Forall_forall. intros r Hr. apply list_elem_of_fmap in Hr as (r' & -> & _).
  apply dashNonPrintable_range.
Qed.

Lemma claimToHeader_length_witness :
  length (afterPrefix (withClaims (str "X-") [])
            (claimToHeader (withClaims (str "X-") [])
               (str "http://r" ++ utf8.EncodeRune 233 ++ str "le")).1)
  = length (utf8.range (stripScheme (str "http://r" ++ utf8.EncodeRune 233 ++ str "le"))).
Proof.
  apply claimToHeader_length.
  exists [104; 116; 116; 112; 58; 47; 47; 114; 233; 108; 101].
  split; [|reflexivity].
  repeat constructor; unfold utf8.surrogateMin, utf8.surrogateMax, utf8.MaxRune; lia.
Defined.

(** ** The header is in canonical form *)

Lemma cleanByte_valid c : cleanByte c = true -> http.validHeaderFieldByte c = true.
Proof. destruct c as [[] [] [] [] [] [] [] []]; vm_compute; congruence. Qed.

Lemma canonical_valid upper s :
  forallb http.validHeaderFieldByte s = true ->
  forallb http.validHeaderFieldByte (http.canonical upper s) = true.
Proof.
  revert upper. induction s as [|c s IH]; intros upper H; [done|].
  cbn [forallb] in H. apply andb_true_iff in H as [Hc Hs].
  cbn [http.canonical forallb]. rewrite IH, andb_true_r by done.
  revert Hc. clear.
  destruct upper, c as [[] [] [] [] [] [] [] []]; vm_compute; congruence.
Qed.

Lemma canonical_cons upper c s :
  http.canonical upper (c :: s)
  = canonByte upper c :: http.canonical (Ascii.eqb (canonByte upper c) "-"%char) s.
Proof. reflexivity. Qed.

Lemma canonByte_idempotent upper c : canonByte upper (canonByte upper c) = canonByte upper c.
Proof. destruct upper, c as [[] [] [] [] [] [] [] []]; by vm_compute. Qed.

Lemma canonical_idempotent upper s :
  http.canonical upper (http.canonical upper s) = http.canonical upper s.
Proof.
  revert upper. induction s as [|c s IH]; intros upper; [done|].
  rewrite !canonical_cons, canonByte_idempotent. f_equal. apply IH.
Qed.

(** [CanonicalHeaderKey] applied twice is [CanonicalHeaderKey]. *)
Lemma CanonicalHeaderKey_idempotent s :
  http.CanonicalHeaderKey (http.CanonicalHeaderKey s) = http.CanonicalHeaderKey s.
Proof.
  unfold http.CanonicalHeaderKey at 2 3.
  destruct (forallb http.validHeaderFieldByte s) eqn:E.
  - unfold http.CanonicalHeaderKey. rewrite canonical_valid by done.
    apply canonical_idempotent.
  - unfold http.CanonicalHeaderKey. by rewrite E.
Qed.

(** X3: what follows the prefix is a canonical header key, whatever the
    claim: canonicalizing it again changes nothing; on a well-formed claim
    it is made of valid header field bytes only. *)
Theorem claimToHeader_canonical Cfg claim :
  let body := afterPrefix Cfg (claimToHeader Cfg claim).1 in
  http.CanonicalHeaderKey body = body
  /\ (utf8.wellformed claim -> forallb http.validHeaderFieldByte body = true).
Proof.
  cbv zeta. rewrite afterPrefix_claimToHeader. split.
  - apply CanonicalHeaderKey_idempotent.
  - intros Hw. pose proof (sanitize_clean claim Hw) as Hc.
    assert (Hv : forallb http.validHeaderFieldByte (sanitize claim) = true).
    { rewrite forallb_Forall in *. eapply Forall_impl; [exact Hc|].
      intros c. apply cleanByte_valid. }
    unfold http.CanonicalHeaderKey. rewrite Hv. by apply canonical_valid.
Qed.

Lemma claimToHeader_canonical_witness :
  forallb http.validHeaderFieldByte
    (afterPrefix (withClaims (str "X-") [])
       (claimToHeader (withClaims (str "X-") []) (str "given name")).1) = true.
Proof.
  apply (proj2 (claimToHeader_canonical (withClaims (str "X-") []) (str "given name"))).
  exists [103; 105; 118; 101; 110; 32; 110; 97; 109; 101].
  split; [|reflexivity].
  repeat constructor; unfold utf8.surrogateMin, utf8.surrogateMax, utf8.MaxRune; lia.
Defined.

(** ** What can follow the prefix, for any claim at all *)

Module any_claim.
Import utf8 utf8_facts strings strings_facts.

Lemma accept_lo i : 128 <= fst (acceptRanges i).
Proof. unfold acceptRanges. repeat case_match; cbn; lia. Qed.

Lemma in_accept s1 acc :
  (s1 <? fst acc) || (snd acc <? s1) = false -> 128 <= fst acc -> 128 <= s1.
Proof. intros H ?. apply orb_false_iff in H as [H _]. apply Z.ltb_ge in H. lia. Qed.

Lemma in_cont s1 : (s1 <? locb) || (hicb <? s1) = false -> 128 <= s1.
Proof. intros H. apply orb_false_iff in H as [H _]. apply Z.ltb_ge in H. unfold locb in H. lia. Qed.

(** The bytes a decoding step passes over after a first byte with the high
    bit set have the high bit set too. *)
Lemma decode_high a t :
  128 <= byteZ a ->
  Forall (fun b => 128 <= byteZ b) (take (DecodeRuneInString (a :: t)).2 (a :: t)).
Proof.
  intros Ha. unfold DecodeRuneInString. cbv zeta.
  change ((length (a :: t) <? 1)%nat) with false. cbv iota.
  change (at_ (a :: t) 0) with (byteZ a).
  destruct (as_ <=? first (byteZ a)); [by repeat constructor|].
  destruct (length (a :: t) <? _)%nat; [by repeat constructor|].
  destruct ((at_ (a :: t) 1 <? _) || _) eqn:E1; [by repeat constructor|].
  pose proof (in_accept _ _ E1 (accept_lo _)) as H1.
  destruct (_ <=? 2)%nat.
  { destruct t as [|b t]; cbn [snd take]; repeat constructor; done. }
  destruct ((at_ (a :: t) 2 <? _) || _) eqn:E2; [by repeat constructor|].
  apply in_cont in E2.
  destruct (_ <=? 3)%nat.
  { destruct t as [|b [|c t]]; cbn [snd take]; repeat constructor; done. }
  destruct ((at_ (a :: t) 3 <? _) || _) eqn:E3; [by repeat constructor|].
  apply in_cont in E3.
  destruct t as [|b [|c [|d t]]]; cbn [snd take]; repeat constructor; done.
Qed.

Lemma range_cons a t :
  range (a :: t)
  = (DecodeRuneInString (a :: t)).1 :: range (drop (DecodeRuneInString (a :: t)).2 (a :: t)).
Proof.
  unfold range at 1. cbn [length range_fuel].
  pose proof (decode_width (a :: t) ltac:(done)) as Hw.
  destruct (DecodeRuneInString (a :: t)) as [r w]. cbn [fst snd] in *.
  f_equal. apply range_fuel_enough; [|done].
  rewrite length_drop. cbn [length]. lia.
Qed.

Abbreviation cnt := (count_occ ascii_dec).
Abbreviation cntZ := (count_occ Z.eq_dec).

Lemma cnt_high c s :
  byteZ c < 128 -> Forall (fun b => 128 <= byteZ b) s -> cnt s c = 0%nat.
Proof.
  intros Hc Hs. apply count_occ_not_In. intros Hin.
  rewrite Forall_forall in Hs. apply list_elem_of_In, Hs in Hin. lia.
Qed.

(** Every ASCII byte of a string is a rune of its range loop. *)
Lemma cnt_range c s : byteZ c < 128 -> (cnt s c <= cntZ (range s) (byteZ c))%nat.
Proof.
  intros Hc. remember (length s) as n eqn:Hn. revert s Hn.
  induction (lt_wf n) as [n _ IH]. intros s ->.
  destruct s as [|a t]; [done|]. rewrite range_cons.
  destruct (Z.ltb_spec (byteZ a) 128) as [Ha|Ha].
  - rewrite decode1 by done. cbn [fst snd drop]. rewrite drop_0.
    assert (Hlt : (length t < length (a :: t))%nat) by (cbn [length]; lia).
    specialize (IH (length t) Hlt t eq_refl).
    destruct (ascii_dec a c) as [->|Hne].
    + rewrite !count_occ_cons_eq by done. lia.
    + rewrite (count_occ_cons_neq ascii_dec) by done.
      rewrite (count_occ_cons_neq Z.eq_dec); [done|].
      intros E. by apply byteZ_inj in E.
  - pose proof (decode_high a t Ha) as Hh.
    pose proof (decode_width (a :: t) ltac:(done)) as Hw.
    destruct (DecodeRuneInString (a :: t)) as [r w]. cbn [fst snd] in *.
    rewrite <- (take_drop w (a :: t)) at 1.
    rewrite count_occ_app, (cnt_high c _ Hc Hh).
    assert (Hlt : (length (drop w (a :: t)) < length (a :: t))%nat)
      by (rewrite length_drop; cbn [length]; lia).
    specialize (IH (length (drop w (a :: t))) Hlt _ eq_refl).
    destruct (Z.eq_dec r (byteZ c)) as [E|E].
    + rewrite count_occ_cons_eq by done. lia.
    + rewrite count_occ_cons_neq by done. lia.
Qed.

Lemma cnt_drop_le c m (s : gostring) : (cnt (drop m s) c <= cnt s c)%nat.
Proof. rewrite <- (take_drop m s) at 2. rewrite count_occ_app. lia. Qed.

Lemma cnt_take_drop c j m (s : gostring) :
  (cnt (take j s) c + cnt (drop (j + m) s) c <= cnt s c)%nat.
Proof.
  rewrite <- (take_drop j s) at 3. rewrite count_occ_app.
  rewrite Nat.add_comm, <- drop_drop. pose proof (cnt_drop_le c m (drop j s)). lia.
Qed.

(** Replacing instances of a non-empty [old] adds no byte but those of
    [new]. *)
Lemma replace_loop_cnt c k i rest o old new :
  (cnt (replace_loop k i rest (o :: old) new) c <= cnt rest c + k * cnt new c)%nat.
Proof.
  revert i rest. induction k as [|k IH]; intros i rest; cbn [replace_loop]; [lia|].
  destruct (Index rest (o :: old)) as [j|]; [|lia].
  rewrite !count_occ_app.
  specialize (IH (S i) (drop (j + length (o :: old)) rest)).
  pose proof (cnt_take_drop c j (length (o :: old)) rest). lia.
Qed.

Lemma Replace_cnt c s old new n :
  old <> [] -> cnt new c = 0%nat -> (cnt (Replace s old new n) c <= cnt s c)%nat.
Proof.
  intros Ho Hn. destruct old as [|o old]; [done|]. unfold Replace.
  repeat case_match; try lia.
  all: match goal with |- context [replace_loop ?k ?i ?r _ _] =>
         pose proof (replace_loop_cnt c k i r o old new) end; lia.
Qed.

Lemma Replace_notin c new n s : c ∉ s -> Replace s [c] new n = s.
Proof.
  intros Hc. unfold Replace. destruct (_ || _); [done|].
  unfold Count. cbn [count_loop]. by rewrite Index_notin.
Qed.

Lemma Replace_byte_cnt c (new s : gostring) :
  c ∈ s -> [c] <> new -> cnt new c = 0%nat ->
  S (cnt (Replace s [c] new 1) c) = cnt s c.
Proof.
  intros Hin Hne Hn. apply list_elem_of_split_l in Hin as (P & R & -> & HP).
  change (c :: R) with ([c] ++ R). rewrite Replace_first by done.
  rewrite !count_occ_app, Hn. cbn [app]. rewrite count_occ_cons_eq by done.
  rewrite count_occ_nil. lia.
Qed.

Lemma controlByte_spec c : controlByte c = true <-> byteZ c < 33 \/ byteZ c = 127.
Proof. unfold controlByte. rewrite orb_true_iff, Z.ltb_lt, Z.eqb_eq. done. Qed.

Lemma cnt_hyphen c : c <> hyphen -> cnt [hyphen] c = 0%nat.
Proof. intros Hc. by rewrite count_occ_cons_neq. Qed.

(** The invariant of the second loop on any string: of every control
    character the claim holds no more instances than there are runes still
    to come for it. *)
Lemma replaceNonPrintable_no_control rs claim :
  (forall c, controlByte c = true -> (cnt claim c <= cntZ rs (byteZ c))%nat) ->
  forall c, controlByte c = true ->
    c ∉ fold_left (fun claim r =>
                     if (r <? 33) || (126 <? r)
                     then Replace claim (EncodeRune r) (str "-") 1 else claim) rs claim.
Proof.
  revert claim. induction rs as [|r rs IH]; intros claim H c Hc.
  { specialize (H c Hc). cbn in *. rewrite list_elem_of_In.
    apply (count_occ_not_In ascii_dec). lia. }
  cbn [fold_left]. apply IH; [|done]. clear c Hc. intros c Hc.
  specialize (H c Hc). pose proof Hc as Hc'. apply controlByte_spec in Hc'.
  assert (Hh : c <> hyphen) by (intros ->; by vm_compute in Hc).
  destruct (Z.eq_dec r (byteZ c)) as [->|Hne].
  - rewrite count_occ_cons_eq in H by done.
    assert (Ho : (byteZ c <? 33) || (126 <? byteZ c) = true).
    { apply orb_true_iff. rewrite !Z.ltb_lt. lia. }
    rewrite Ho, encode_byte by lia. change (str "-") with [hyphen].
    destruct (decide (c ∈ claim)) as [Hin|Hout].
    + pose proof (Replace_byte_cnt c [hyphen] claim Hin ltac:(congruence)
                    (cnt_hyphen c Hh)). lia.
    + rewrite Replace_notin by done.
      assert (cnt claim c = 0%nat); [|lia].
      apply count_occ_not_In. by rewrite <- list_elem_of_In.
  - rewrite count_occ_cons_neq in H by done.
    destruct ((r <? 33) || (126 <? r)); [|done].
    pose proof (Replace_cnt c claim (EncodeRune r) (str "-") 1) as Hr.
    assert (EncodeRune r <> []).
    { pose proof (encode_length r). destruct (EncodeRune r); [cbn in *; lia|done]. }
    specialize (Hr ltac:(done) (cnt_hyphen c Hh)). lia.
Qed.

(** The second loop adds nothing but hyphens. *)
Lemma replaceNonPrintable_cnt c (rs : list Z) (claim : gostring) :
  c <> hyphen ->
  (cnt (fold_left (fun claim r =>
                     if ((r <? 33) || (126 <? r))%Z
                     then Replace claim (EncodeRune r) (str "-") 1%Z else claim) rs claim) c
   <= cnt claim c)%nat.
Proof.
  intros Hh. revert claim. induction rs as [|r rs IH]; intros claim; [done|].
  cbn [fold_left]. etrans; [apply IH|].
  destruct ((r <? 33) || (126 <? r)); [|done].
  apply Replace_cnt; [|by apply cnt_hyphen].
  pose proof (encode_length r). destruct (EncodeRune r); [cbn in *; lia|done].
Qed.

Lemma replaceNonPrintable_le c s :
  c <> hyphen -> (cnt (replaceNonPrintable s) c <= cnt s c)%nat.
Proof. intros Hh. exact (replaceNonPrintable_cnt c (range s) s Hh). Qed.

Lemma replaceDisallowed_cnt b s : b ∈ disallowed -> cnt (replaceDisallowed s) b = 0%nat.
Proof.
  intros Hd. apply count_occ_not_In. rewrite <- list_elem_of_In, replaceDisallowed_map.
  intros Hin. apply list_elem_of_fmap in Hin as (b' & -> & _).
  exact (dashDisallowed_allowed b' Hd).
Qed.

Lemma sanitize_not_disallowed s b :
  b ∈ replaceNonPrintable (replaceDisallowed s) -> b ∉ disallowed.
Proof.
  intros Hb Hd.
  assert (Hh : b <> hyphen).
  { intros ->. exact (hyphen_allowed Hd). }
  apply list_elem_of_In, (count_occ_In ascii_dec) in Hb.
  pose proof (replaceNonPrintable_le b (replaceDisallowed s) Hh) as Hle.
  pose proof (replaceDisallowed_cnt b s Hd) as Hz.
  revert Hb Hle Hz. generalize (cnt (replaceNonPrintable (replaceDisallowed s)) b).
  generalize (cnt (replaceDisallowed s) b). clear. intros; lia.
Qed.

Lemma sanitize_no_control s b :
  b ∈ replaceNonPrintable s -> controlByte b = false.
Proof.
  intros Hb. destruct (controlByte b) eqn:Hc; [exfalso|done].
  revert Hb. apply (replaceNonPrintable_no_control (range s) s); [|exact Hc].
  intros c Hcc. apply cnt_range. apply controlByte_spec in Hcc. lia.
Qed.

(** Whatever the claim, a sanitized claim holds clean bytes and bytes with
    the high bit set only. *)
Lemma sanitize_any claim :
  Forall (fun b => cleanByte b = true \/ 128 <= byteZ b) (sanitize claim).
Proof.
  rewrite sanitize_stripScheme. generalize (stripScheme claim). clear claim. intros s.
  apply Forall_forall. intros b Hb.
  pose proof (sanitize_not_disallowed s b Hb) as Hd.
  pose proof (sanitize_no_control _ b Hb) as Hc.
  pose proof (byteZ_range b) as Hr.
  assert (Hn : ~ (byteZ b < 33 \/ byteZ b = 127)).
  { rewrite <- controlByte_spec. rewrite Hc. discriminate. }
  destruct (Z.le_gt_cases 128 (byteZ b)) as [Hhi|Hlo]; [right; exact Hhi|left].
  apply cleanByte_spec. split; [|exact Hd].
  clear - Hlo Hr Hn. lia.
Qed.

Lemma canonByte_ok upper c : headerCharOrHigh c = true -> headerCharOrHigh (canonByte upper c) = true.
Proof. destruct upper, c as [[] [] [] [] [] [] [] []]; vm_compute; congruence. Qed.

Lemma canonical_ok upper s :
  forallb headerCharOrHigh s = true -> forallb headerCharOrHigh (http.canonical upper s) = true.
Proof.
  revert upper. induction s as [|c s IH]; intros upper H; [done|].
  cbn [forallb] in H. apply andb_true_iff in H as [Hc Hs].
  rewrite canonical_cons. cbn [forallb]. by rewrite canonByte_ok, IH.
Qed.

(** Whatever the claim, what follows the prefix holds header characters
    and bytes with the high bit set only. *)
Lemma canonical_sanitize_ok claim :
  forallb headerCharOrHigh (http.CanonicalHeaderKey (sanitize claim)) = true.
Proof.
  assert (Hs : forallb headerCharOrHigh (sanitize claim) = true).
  { apply forallb_Forall. eapply Forall_impl; [apply sanitize_any|].
    intros b [Hb|Hb]; unfold headerCharOrHigh.
    - by rewrite cleanByte_headerChar.
    - rewrite (proj2 (Z.leb_le _ _)) by done. apply orb_true_r. }
  unfold http.CanonicalHeaderKey. case_match; [by apply canonical_ok|done].
Qed.

End any_claim.

Import any_claim.

(** X4: whatever the bytes of the claim, well-formed UTF-8 or not, every
    byte of the header after the prefix is a letter, a digit, a hyphen, one
    of [!#$%&'*+^`|~], or a byte with the high bit set: no control
    character, no space and no character of the disallowed set gets
    through. *)
Theorem claimToHeader_any_claim Cfg claim :
  forallb headerCharOrHigh (afterPrefix Cfg (claimToHeader Cfg claim).1) = true.
Proof. rewrite afterPrefix_claimToHeader. apply canonical_sanitize_ok. Qed.

(** ** More on the map cleanClaimsHeaders builds *)

Lemma claimToHeader_withCleaned (m : gmap gostring gostring) (Cfg : Config) claim :
  claimToHeader (withCleaned m Cfg) claim = claimToHeader Cfg claim.
Proof. reflexivity. Qed.

Lemma cleanLoop_withCleaned (m : gmap gostring gostring) (Cfg : Config) claims m0 :
  cleanLoop (withCleaned m Cfg) claims m0 = cleanLoop Cfg claims m0.
Proof.
  revert m0. induction claims as [|c claims IH]; intros m0; [done|].
  by rewrite !cleanLoop_cons, IH, claimToHeader_withCleaned.
Qed.

(** What [cleanClaimsHeaders] returns: the configuration with the map the
    loop built, every other field as it was. *)
Lemma cleanClaimsHeaders_withCleaned (Cfg : Config) :
  exists m', cleanLoop Cfg (Headers.Claims (Headers Cfg)) ∅ = inl m'
             /\ cleanClaimsHeaders Cfg = (withCleaned m' Cfg, nil_error).
Proof.
  destruct (cleanLoop_inl Cfg (Headers.Claims (Headers Cfg)) ∅) as [m' Hm'].
  exists m'. split; [done|]. unfold cleanClaimsHeaders. by rewrite Hm'.
Qed.

(** X5: [cleanClaimsHeaders] writes the field [ClaimsCleaned] and no other;
    the map it writes does not depend on the map the field held, whose
    entries are all dropped; running it a second time changes nothing. *)
Theorem cleanClaimsHeaders_refresh (Cfg : Config) (m : gmap gostring gostring) :
  withCleaned m (cleanClaimsHeaders Cfg).1 = withCleaned m Cfg
  /\ cleanClaimsHeaders (withCleaned m Cfg) = cleanClaimsHeaders Cfg
  /\ cleanClaimsHeaders (cleanClaimsHeaders Cfg).1 = cleanClaimsHeaders Cfg.
Proof.
  destruct (cleanClaimsHeaders_withCleaned Cfg) as (m' & Hm' & E).
  assert (Hw : forall m0, cleanClaimsHeaders (withCleaned m0 Cfg) = cleanClaimsHeaders Cfg).
  { intros m0. rewrite E. unfold cleanClaimsHeaders.
    change (Headers.Claims (Headers (withCleaned m0 Cfg)))
      with (Headers.Claims (Headers Cfg)).
    by rewrite cleanLoop_withCleaned, Hm'. }
  split; [by rewrite E|]. split; [apply Hw|].
  rewrite E at 1. cbn [fst]. apply Hw.
Qed.

(** X6: every entry of the map [cleanClaimsHeaders] builds is keyed by a
    claim of the list, and its header is the configured prefix followed by
    header characters and bytes with the high bit set only. *)
Theorem cleanClaimsHeaders_values (Cfg : Config) (claim header : gostring) :
  Headers.ClaimsCleaned (Headers (cleanClaimsHeaders Cfg).1) !! claim = Some header ->
  claim ∈ Headers.Claims (Headers Cfg)
  /\ take (length (Headers.ClaimHeader (Headers Cfg))) header
     = Headers.ClaimHeader (Headers Cfg)
  /\ forallb headerCharOrHigh (afterPrefix Cfg header) = true.
Proof.
  rewrite cleanClaimsHeaders_lookup. case_bool_decide as Hin; [|done].
  intros H. assert (header = (claimToHeader Cfg claim).1) as -> by congruence.
  split; [done|]. split.
  - unfold claimToHeader. cbn [fst]. by rewrite take_app_length.
  - rewrite afterPrefix_claimToHeader. apply canonical_sanitize_ok.
Qed.

Lemma cleanClaimsHeaders_values_witness :
  let Cfg := withClaims (str "X-Vouch-IdP-Claims-") [str "given_name"; str "groups"] in
  str "given_name" ∈ Headers.Claims (Headers Cfg)
  /\ take (length (Headers.ClaimHeader (Headers Cfg))) (str "X-Vouch-IdP-Claims-Given-Name")
     = Headers.ClaimHeader (Headers Cfg)
  /\ forallb headerCharOrHigh (afterPrefix Cfg (str "X-Vouch-IdP-Claims-Given-Name")) = true.
Proof.
  cbv zeta.
  apply (cleanClaimsHeaders_values
           (withClaims (str "X-Vouch-IdP-Claims-") [str "given_name"; str "groups"])
           (str "given_name") (str "X-Vouch-IdP-Claims-Given-Name")).
  vm_compute. reflexivity.
Defined.

(** ** More on the resolution pipeline *)

Section PipelineFacts.
Context {W : World}.

Lemma fixed_SetConfigFile f (st : State) : fixed (SetConfigFile f st) = fixed st.
Proof. by destruct f. Qed.

Lemma fixed_SetConfigName f (st : State) : fixed (SetConfigName f st) = fixed st.
Proof. by destruct f. Qed.

Lemma fixed_SetConfigType f (st : State) : fixed (SetConfigType f st) = fixed st.
Proof. by destruct f. Qed.

Lemma fixed_AddConfigPath f (st : State) : fixed (AddConfigPath f st) = fixed st.
Proof. destruct f; [done|]. unfold AddConfigPath. by case_bool_decide. Qed.

Lemma fixed_logError err (st : State) : fixed (logError err st) = fixed st.
Proof. by destruct err. Qed.

Lemma fixed_locateConfig (st : State) : fixed (locateConfig st) = fixed st.
Proof.
  unfold locateConfig.
  destruct (Getenv _); [destruct (cmd_configFile _)|];
    by rewrite ?fixed_SetConfigFile, ?fixed_AddConfigPath, ?fixed_SetConfigType,
               ?fixed_SetConfigName.
Qed.

Lemma viper_config_SetConfigFile f (st : State) :
  viper_config (SetConfigFile f st) = viper_config st.
Proof. by destruct f. Qed.

Lemma viper_config_SetConfigName f (st : State) :
  viper_config (SetConfigName f st) = viper_config st.
Proof. by destruct f. Qed.

Lemma viper_config_SetConfigType f (st : State) :
  viper_config (SetConfigType f st) = viper_config st.
Proof. by destruct f. Qed.

Lemma viper_config_locateConfig (st : State) :
  viper_config (locateConfig st) = viper_config st.
Proof.
  unfold locateConfig.
  destruct (Getenv _); [destruct (cmd_configFile _)|];
    by rewrite ?viper_config_SetConfigFile, ?viper_config_AddConfigPath,
               ?viper_config_SetConfigType, ?viper_config_SetConfigName.
Qed.

Lemma log_SetConfigFile f (st : State) : log (SetConfigFile f st) = log st.
Proof. by destruct f. Qed.

Lemma log_SetConfigName f (st : State) : log (SetConfigName f st) = log st.
Proof. by destruct f. Qed.

Lemma log_SetConfigType f (st : State) : log (SetConfigType f st) = log st.
Proof. by destruct f. Qed.

Lemma log_AddConfigPath f (st : State) : log (AddConfigPath f st) = log st.
Proof. destruct f; [done|]. unfold AddConfigPath. by case_bool_decide. Qed.

(** Choosing the file logs at most one entry, a warning or an
    information. *)
Lemma log_locateConfig (st : State) :
  exists l, log (locateConfig st) = log st ++ l
            /\ Forall (fun e => level e <> ErrorLevel) l.
Proof.
  unfold locateConfig.
  destruct (Getenv _); [destruct (cmd_configFile _)|].
  - exists []. rewrite log_AddConfigPath, log_SetConfigType, log_SetConfigName.
    by rewrite app_nil_r.
  - eexists [_]. rewrite log_SetConfigFile, !log_AddConfigPath. split; [reflexivity|].
    by apply Forall_singleton.
  - eexists [_]. rewrite log_SetConfigFile. split; [reflexivity|].
    by apply Forall_singleton.
Qed.

Lemma migrationWarning_format : format migrationWarning <> [].
Proof. discriminate. Qed.

(** Decoding the file that was read. *)
Lemma decodeConfig_spec (st : State) (doc : Doc) :
  viper_config st = Some doc ->
  let primary := (viper_decode doc Branding.LCName (Cfg st)).1 in
  let legacy := (viper_decode doc Branding.OldLCName zeroConfig).1 in
  let adopt := (length (Domains primary) =? 0)%nat
               && negb (length (Domains legacy) =? 0)%nat in
  Cfg (decodeConfig st) = settled primary legacy
  /\ viper_config (decodeConfig st) = Some doc
  /\ viper (decodeConfig st) = viper st
  /\ fixed (decodeConfig st) = fixed st
  /\ exists l,
       log (decodeConfig st)
       = log st ++ l ++ (if adopt then [migrationWarning] else [])
       /\ Forall (fun e => format e = []) l
       /\ (forall msg, viper_decodeStrict doc = Some msg ->
           mkLog ErrorLevel [] [ArgError msg] ∈ l).
Proof.
  intros Hd. cbv zeta. unfold decodeConfig, settled, checkConfigFileWellFormed, UnmarshalKey.
  rewrite Hd.
  set (st0 := match viper_decodeStrict doc with Some _ => _ | None => _ end).
  assert (H0 : Cfg st0 = Cfg st /\ viper_config st0 = Some doc /\ viper st0 = viper st
               /\ fixed st0 = fixed st
               /\ exists l0, log st0 = log st ++ l0 /\ Forall (fun e => format e = []) l0
                  /\ (forall msg, viper_decodeStrict doc = Some msg ->
                      mkLog ErrorLevel [] [ArgError msg] ∈ l0)).
  { subst st0. destruct (viper_decodeStrict doc) as [m|].
    - repeat split; try done. eexists [_; _; _]. cbn [log logf].
      rewrite <- !app_assoc. split; [reflexivity|]. split; [by repeat constructor|].
      intros msg [= ->]. apply elem_of_cons. right. apply elem_of_cons. by left.
    - repeat split; try done. exists []. by rewrite app_nil_r. }
  destruct H0 as (Hc & Hv & Hs & Hf & l0 & Hl & Hfmt & Hstrict).
  clearbody st0. rewrite Hv, Hc.
  destruct (viper_decode doc Branding.LCName (Cfg st)) as [cfg err1].
  cbn [fst].
  assert (H1 : Cfg (logError err1 (setCfg cfg st0)) = cfg
               /\ viper_config (logError err1 (setCfg cfg st0)) = Some doc
               /\ viper (logError err1 (setCfg cfg st0)) = viper st
               /\ fixed (logError err1 (setCfg cfg st0)) = fixed st
               /\ exists l1, log (logError err1 (setCfg cfg st0)) = log st ++ l1
                  /\ Forall (fun e => format e = []) l1
                  /\ (forall msg, viper_decodeStrict doc = Some msg ->
                      mkLog ErrorLevel [] [ArgError msg] ∈ l1)).
  { destruct err1 as [m|]; cbn [logError logf setCfg Cfg viper_config viper log].
    - repeat split; try done. exists (l0 ++ [mkLog ErrorLevel [] [ArgError m]]).
      rewrite Hl, <- app_assoc. split; [done|]. split.
      + apply Forall_app. split; [done|]. by apply Forall_singleton.
      + intros msg Hm. apply elem_of_app. left. by apply Hstrict.
    - repeat split; try done. by exists l0. }
  destruct H1 as (Hc1 & Hv1 & Hs1 & Hf1 & l1 & Hl1 & Hfmt1 & Hstrict1).
  generalize dependent (logError err1 (setCfg cfg st0)). intros st1 Hc1 Hv1 Hs1 Hf1 Hl1.
  rewrite Hc1, Hv1.
  destruct (length (Domains cfg) =? 0)%nat; cbn [andb].
  2:{ repeat split; try done. exists l1. by rewrite app_nil_r. }
  destruct (viper_decode doc Branding.OldLCName zeroConfig) as [old err2].
  cbn [fst].
  assert (H2 : Cfg (logError err2 st1) = cfg
               /\ viper_config (logError err2 st1) = Some doc
               /\ viper (logError err2 st1) = viper st
               /\ fixed (logError err2 st1) = fixed st
               /\ exists l2, log (logError err2 st1) = log st ++ l2
                  /\ Forall (fun e => format e = []) l2
                  /\ (forall msg, viper_decodeStrict doc = Some msg ->
                      mkLog ErrorLevel [] [ArgError msg] ∈ l2)).
  { destruct err2 as [m|]; cbn [logError logf setCfg Cfg viper_config viper log].
    - repeat split; try done. exists (l1 ++ [mkLog ErrorLevel [] [ArgError m]]).
      rewrite Hl1, <- app_assoc. split; [done|]. split.
      + apply Forall_app. split; [done|]. by apply Forall_singleton.
      + intros msg Hm. apply elem_of_app. left. by apply Hstrict1.
    - repeat split; try done. by exists l1. }
  destruct H2 as (Hc2 & Hv2 & Hs2 & Hf2 & l2 & Hl2 & Hfmt2 & Hstrict2).
  generalize dependent (logError err2 st1). intros st2 Hc2 Hv2 Hs2 Hf2 Hl2.
  destruct (length (Domains old) =? 0)%nat; cbn [negb].
  - repeat split; try done. exists l2. by rewrite app_nil_r.
  - repeat split; try done. exists l2. cbn [log setCfg logf]. by rewrite Hl2, <- app_assoc.
Qed.

End PipelineFacts.
